(** * ruffwrap: sentinel extraction and batch orchestration

    A shallow embedding of [src/ruffwrap/cli.py].  Text is modelled as
    [string] (code points below 256); the Python library routines the
    program calls ([str.splitlines], [re.search] on the three sentinel
    patterns, [shlex.split], [int], [os.path]) are modelled by executable
    definitions of their documented behaviour; the file system, the
    environment and child processes are an explicit [Host] oracle, and every
    child process the program launches is appended to a history of calls.
    Diagnostic printing to stderr is not modelled. *)

From Stdlib Require Import ZArith Ascii String List Sorted Permutation.
From stdpp Require Import gmap strings list fin_maps sorting.

Local Open Scope string_scope.
Local Open Scope Z_scope.
Local Open Scope stdpp_scope.
Local Open Scope list_scope.

(** ** Python string primitives *)

Module Py.

(** [s.startswith(p)] *)
Fixpoint startswith (s p : string) {struct p} : bool :=
  match p, s with
  | EmptyString, _ => true
  | String a p', String b s' => Ascii.eqb a b && startswith s' p'
  | String _ _, EmptyString => false
  end.

(** [s[-1]]; [None] stands for the [IndexError] on the empty string. *)
Fixpoint last_char (s : string) : option ascii :=
  match s with
  | EmptyString => None
  | String c EmptyString => Some c
  | String _ s' => last_char s'
  end.

(** [needle in hay] *)
Fixpoint contains (needle hay : string) : bool :=
  startswith hay needle ||
  match hay with
  | EmptyString => false
  | String _ hay' => contains needle hay'
  end.

(** [s.count(c)] for a one-character [c] *)
Fixpoint count (c : ascii) (s : string) : nat :=
  match s with
  | EmptyString => 0%nat
  | String x s' => ((if Ascii.eqb x c then 1 else 0) + count c s')%nat
  end.

(** Line boundaries of [str.splitlines]: LF, VT, FF, CR, FS, GS, RS, NEL
    (CR LF counts as one boundary). *)
Definition is_linebreak (c : ascii) : bool :=
  match nat_of_ascii c with
  | 10 | 11 | 12 | 13 | 28 | 29 | 30 | 133 => true
  | _ => false
  end%nat.

Fixpoint splitlines_go (acc : string) (s : string) : list string :=
  match s with
  | EmptyString =>
      match acc with EmptyString => [] | _ => [String.rev acc] end
  | String c s' =>
      if is_linebreak c then
        String.rev acc ::
          match s' with
          | String c2 s'' =>
              if Ascii.eqb c "013" && Ascii.eqb c2 "010"
              then splitlines_go EmptyString s''
              else splitlines_go EmptyString s'
          | EmptyString => splitlines_go EmptyString s'
          end
      else splitlines_go (String c acc) s'
  end.

(** [s.splitlines()] *)
Definition splitlines (s : string) : list string := splitlines_go EmptyString s.

(** [s.split("/")] *)
Fixpoint split_go (sep : ascii) (acc : string) (s : string) : list string :=
  match s with
  | EmptyString => [String.rev acc]
  | String c s' =>
      if Ascii.eqb c sep then String.rev acc :: split_go sep EmptyString s'
      else split_go sep (String c acc) s'
  end.
Definition split (sep : ascii) (s : string) : list string :=
  split_go sep EmptyString s.

(** ["/".join(l)] *)
Fixpoint join (sep : string) (l : list string) : string :=
  match l with
  | [] => ""
  | [x] => x
  | x :: l' => x +:+ sep +:+ join sep l'
  end.

Definition is_digit (c : ascii) : bool :=
  (48 <=? nat_of_ascii c)%nat && (nat_of_ascii c <=? 57)%nat.

Fixpoint digits_go (acc : Z) (s : string) : option Z :=
  match s with
  | EmptyString => Some acc
  | String c s' =>
      if is_digit c
      then digits_go (10 * acc + (Z.of_nat (nat_of_ascii c) - 48)) s'
      else None
  end.

(** [int(s)] on a sign followed by decimal digits; [None] is [ValueError].
    (The program only applies it to the one character captured by the
    index group, which is a digit or ["+"].) *)
Definition int (s : string) : option Z :=
  match s with
  | EmptyString => None
  | String "+" (String c r) => digits_go 0 (String c r)
  | String "-" (String c r) => Z.opp <$> digits_go 0 (String c r)
  | String "+" EmptyString | String "-" EmptyString => None
  | _ => digits_go 0 s
  end.

End Py.

(** ** Regular expressions: the fragment used by the sentinel patterns

    A pattern is a sequence of items: literal text, one character of a
    class, a greedy repetition of a class, possibly inside a named group,
    and the end anchor.  Matching is backtracking with Python's priorities
    (greedy repetitions give back one character at a time). *)

Module Re.

Inductive atom :=
  | Lit (s : string)                 (* literal text *)
  | One (cls : ascii -> bool)        (* [...]  *)
  | Many1 (cls : ascii -> bool)      (* [...]+ *)
  | Many0 (cls : ascii -> bool).     (* [...]* *)

Inductive item :=
  | Plain (a : atom)
  | Group (name : string) (a : atom) (* (?P<name>(a)) *)
  | Eos.                             (* $ *)

Definition pattern := list item.
Definition groups := list (string * string).

(** [.] : any character but a newline *)
Definition dot (c : ascii) : bool := negb (Ascii.eqb c "010").
(** [\d] *)
Definition digit (c : ascii) : bool := Py.is_digit c.

Section Matcher.
Context {R : Type}.

(** greedy [cls*] from [s], [acc] being the text consumed so far
    (reversed); the continuation gets the consumed text and the rest *)
Fixpoint rep (cls : ascii -> bool) (k : string -> string -> option R)
    (acc : string) (s : string) : option R :=
  match s with
  | String c s' =>
      if cls c then
        match rep cls k (String c acc) s' with
        | Some r => Some r
        | None => k (String.rev acc) s
        end
      else k (String.rev acc) s
  | EmptyString => k (String.rev acc) s
  end.

Fixpoint lit (l : string) (s : string) : option string :=
  match l, s with
  | EmptyString, _ => Some s
  | String a l', String b s' => if Ascii.eqb a b then lit l' s' else None
  | String _ _, EmptyString => None
  end.

Definition match_atom (a : atom) (k : string -> string -> option R)
    (s : string) : option R :=
  match a with
  | Lit l => match lit l s with Some s' => k l s' | None => None end
  | One cls =>
      match s with
      | String c s' => if cls c then k (String c EmptyString) s' else None
      | EmptyString => None
      end
  | Many1 cls =>
      match s with
      | String c s' =>
          if cls c then rep cls k (String c EmptyString) s' else None
      | EmptyString => None
      end
  | Many0 cls => rep cls k EmptyString s
  end.
End Matcher.

(** [$]: at the end of the string, or just before a final newline *)
Definition at_end (s : string) : bool :=
  match s with
  | EmptyString => true
  | String c EmptyString => Ascii.eqb c "010"
  | _ => false
  end.

(** match the whole pattern at the start of [s] *)
Fixpoint match_here (p : pattern) (s : string) (g : groups) : option groups :=
  match p with
  | [] => Some g
  | Eos :: p' => if at_end s then match_here p' s g else None
  | Plain a :: p' => match_atom a (fun _ s' => match_here p' s' g) s
  | Group n a :: p' =>
      match_atom a (fun txt s' => match_here p' s' ((n, txt) :: g)) s
  end.

(** [re.search(p, s)]: the match at the leftmost possible position *)
Fixpoint search (p : pattern) (s : string) : option groups :=
  match match_here p s [] with
  | Some g => Some g
  | None =>
      match s with
      | EmptyString => None
      | String _ s' => search p s'
      end
  end.

(** [match.group(name)] *)
Fixpoint group (name : string) (g : groups) : string :=
  match g with
  | [] => ""
  | (n, v) :: g' => if String.eqb n name then v else group name g'
  end.

End Re.

(** ** shlex.split (POSIX mode, whitespace splitting, no comments) *)

Module Shlex.

Inductive state :=
  | Ws                           (* ' ' : between tokens *)
  | Word                         (* 'a' : inside a word *)
  | Quote (q : ascii)            (* inside '...' or "..." *)
  | Esc (back : option ascii).   (* after a backslash; [back] is the quote
                                    to return to, [None] for a word *)

(** the double-quote character *)
Definition dquote : ascii := "034".

Definition whitespace (c : ascii) : bool :=
  match nat_of_ascii c with 32 | 9 | 13 | 10 => true | _ => false end%nat.
Definition quote (c : ascii) : bool :=
  Ascii.eqb c "'" || Ascii.eqb c dquote.
Definition escape (c : ascii) : bool := Ascii.eqb c "\".

Definition snoc (t : string) (c : ascii) : string := t +:+ String c EmptyString.
Definition nonempty (t : string) : bool :=
  match t with EmptyString => false | _ => true end.

(** The reader loop of [shlex.read_token], run over the whole input:
    [tok] is the token being built, [quoted] whether it had a quoted part.
    [None] is the [ValueError] of an unclosed quote or dangling escape. *)
Fixpoint go (st : state) (tok : string) (quoted : bool) (s : string)
    : option (list string) :=
  match s with
  | EmptyString =>
      match st with
      | Ws => Some []
      | Word => Some (if nonempty tok || quoted then [tok] else [])
      | Quote _ => None
      | Esc _ => None
      end
  | String c s' =>
      match st with
      | Ws =>
          if whitespace c then
            if nonempty tok || quoted then (tok ::.) <$> go Ws "" false s'
            else go Ws tok quoted s'
          else if escape c then go (Esc None) tok quoted s'
          else if quote c then go (Quote c) tok quoted s'
          else go Word (String c EmptyString) quoted s'
      | Quote q =>
          if Ascii.eqb c q then go Word tok true s'
          else if escape c && Ascii.eqb q dquote then go (Esc (Some q)) tok true s'
          else go (Quote q) (snoc tok c) true s'
      | Esc back =>
          match back with
          | Some q =>
              let tok' :=
                if negb (escape c) && negb (Ascii.eqb c q)
                then snoc tok "\" else tok in
              go (Quote q) (snoc tok' c) quoted s'
          | None => go Word (snoc tok c) quoted s'
          end
      | Word =>
          if whitespace c then
            if nonempty tok || quoted then (tok ::.) <$> go Ws "" false s'
            else go Ws tok quoted s'
          else if quote c then go (Quote c) tok quoted s'
          else if escape c then go (Esc None) tok quoted s'
          else go Word (snoc tok c) quoted s'
      end
  end.

Definition split (s : string) : option (list string) := go Ws "" false s.

End Shlex.

(** ** Exceptions and outcomes *)

Inductive exn :=
  | FileNotFoundError
  | ValueError
  | IndexError
  | OSError
  | CalledProcessError (returncode : Z).

Inductive outcome (A : Type) :=
  | Ret (a : A)
  | Raise (e : exn).
Arguments Ret {A} a.
Arguments Raise {A} e.

(** truth value of an optional string ([None] and [""] are false) *)
Definition truthy (o : option string) : bool :=
  match o with Some s => Shlex.nonempty s | None => false end.

(** ** The mode object: [ModeBase] / [BatchMode] fields that change *)

(** A command sequence: [dict[int, list[str]]]. *)
Abbreviation cmdseq := (gmap Z (list string)).

Record Self := mkSelf {
  _exec : string;
  _modes : gmap string cmdseq;
}.

(** [_reset]: every modelled field gets its initial value. *)
Definition _reset : Self := {| _exec := ""; _modes := ∅ |}.

(** ** Standard definitions of the built-in modes *)

(** [{idx: shlex.split(cmd_str) for idx, cmd_str in enumerate(l)}] *)
Fixpoint enumerate_split (idx : Z) (l : list string) : option cmdseq :=
  match l with
  | [] => Some ∅
  | cmd_str :: l' =>
      match Shlex.split cmd_str, enumerate_split (idx + 1) l' with
      | Some cmd, Some d => Some (<[idx := cmd]> d)
      | _, _ => None
      end
  end.

Definition _get_hook_mode_default_definition (fix_arg : string)
    : option cmdseq :=
  enumerate_split 0
    [ "check " +:+ fix_arg;
      "format";
      "check --fix-only --select RUF100 --quiet";
      "check --add-noqa --quiet";
      "format --quiet";
      "check --fix-only --select RUF100 --quiet";
      "check --add-noqa --quiet";
      "check --exit-zero --no-fix --output-format=json-lines";
      "format --quiet --check" ].

Definition _get_hook_fix_mode_default_definition : option cmdseq :=
  _get_hook_mode_default_definition "--fix".

(** [s] between double quotes *)
Definition quoted (s : string) : string :=
  String Shlex.dquote (s +:+ String Shlex.dquote EmptyString).

Definition _get_verify_mode_default_definition : option cmdseq :=
  enumerate_split 0
    [ "check --no-fix --no-cache --config " +:+ quoted "cache-dir = '/dev/null'";
      "format --check --no-cache --config " +:+ quoted "cache-dir = '/dev/null'" ].

Definition _get_enroll_mode_default_definition : option cmdseq :=
  enumerate_split 0
    [ "format";
      "check --fix-only --select PLR2044 --quiet";
      "check --add-noqa";
      "format --quiet";
      "check --fix-only --select RUF100 --quiet";
      "check --add-noqa --quiet";
      "format --quiet";
      "check --add-noqa --quiet";
      "format --quiet";
      "check --no-fix --quiet" ].

(** [_mode_default_definition_funcs]; a generator that fails stands for
    the [ValueError] of [shlex.split]. *)
Definition _mode_default_definition_funcs
    : gmap string (unit -> option cmdseq) :=
  <["hook" := fun _ => _get_hook_mode_default_definition "--no-fix"]>
  (<["hook-fix" := fun _ => _get_hook_fix_mode_default_definition]>
  (<["verify" := fun _ => _get_verify_mode_default_definition]>
  (<["enroll" := fun _ => _get_enroll_mode_default_definition]> ∅))).

(** ** Sentinel rules *)

(** [[a-zA-Z0-9\-\_]] *)
Definition mode_char (c : ascii) : bool :=
  let n := nat_of_ascii c in
  ((97 <=? n) && (n <=? 122) || (65 <=? n) && (n <=? 90) ||
   (48 <=? n) && (n <=? 57) || (n =? 45) || (n =? 95))%nat.

(** [[\d+]]: one character, a digit or a plus sign *)
Definition idx_char (c : ascii) : bool := Re.digit c || Ascii.eqb c "+".

(** The pattern of [_sentinel_exec] (line 121): the EXEC group is one or
    more characters, then a comma and [$]. *)
Definition _sentinel_exec_pattern : Re.pattern :=
  [ Re.Plain (Re.Lit "__RUFFWRAP_EXEC__");
    Re.Group "EXEC" (Re.Many1 Re.dot);
    Re.Plain (Re.Lit ","); Re.Eos ].

(** The pattern of [_sentinel_cmd] (line 304): the MODE group is
    [[a-zA-Z0-9\-\_]+], the IDX group is the one-character class [[\d+]],
    the ARGS group is any text (possibly empty), then a comma and [$]. *)
Definition _sentinel_cmd_pattern : Re.pattern :=
  [ Re.Plain (Re.Lit "__RUFFWRAP_MODE_");
    Re.Group "MODE" (Re.Many1 mode_char);
    Re.Plain (Re.Lit "_CMD_");
    Re.Group "IDX" (Re.One idx_char);
    Re.Plain (Re.Lit "__");
    Re.Group "ARGS" (Re.Many0 Re.dot);
    Re.Plain (Re.Lit ","); Re.Eos ].

(** The pattern of [_sentinel_default_definition] (line 315). *)
Definition _sentinel_default_definition_pattern : Re.pattern :=
  [ Re.Plain (Re.Lit "__RUFFWRAP_MODE_");
    Re.Group "MODE" (Re.Many1 mode_char);
    Re.Plain (Re.Lit "_DEFAULT_DEFINITION__,"); Re.Eos ].

Definition handler := Re.groups -> Self -> outcome Self.

Definition _sentinel_exec : handler := fun m self =>
  Ret {| _exec := Re.group "EXEC" m; _modes := _modes self |}.

(** [self._modes[mode][idx] = args], creating [self._modes[mode]] first
    when the mode is not there *)
Definition declare_cmd (mode : string) (idx : Z) (args : list string)
    (self : Self) : Self :=
  let d := match _modes self !! mode with Some d => d | None => ∅ end in
  {| _exec := _exec self; _modes := <[mode := <[idx := args]> d]> (_modes self) |}.

Definition _sentinel_cmd : handler := fun m self =>
  let mode := Re.group "MODE" m in
  match Py.int (Re.group "IDX" m) with
  | None => Raise ValueError
  | Some idx =>
      match Shlex.split (Re.group "ARGS" m) with
      | None => Raise ValueError
      | Some args => Ret (declare_cmd mode idx args self)
      end
  end.

(** [self._modes[mode] = def_func() if def_func else {}] *)
Definition activate_default (mode : string) (self : Self) : outcome Self :=
  match _mode_default_definition_funcs !! mode with
  | Some def_func =>
      match def_func tt with
      | Some d => Ret {| _exec := _exec self; _modes := <[mode := d]> (_modes self) |}
      | None => Raise ValueError
      end
  | None => Ret {| _exec := _exec self; _modes := <[mode := ∅]> (_modes self) |}
  end.

Definition _sentinel_default_definition : handler := fun m self =>
  activate_default (Re.group "MODE" m) self.

(** [_sentinels_map], in insertion order *)
Definition sentinels_map := list (Re.pattern * handler).

Definition ModeBase_sentinels_map : sentinels_map :=
  [ (_sentinel_exec_pattern, _sentinel_exec) ].

Definition BatchMode_sentinels_map : sentinels_map :=
  ModeBase_sentinels_map ++
  [ (_sentinel_default_definition_pattern, _sentinel_default_definition);
    (_sentinel_cmd_pattern, _sentinel_cmd) ].

(** The inner loop of [process_sentinels]: the first rule that matches the
    line has its handler called, and no other rule is tried. *)
Fixpoint dispatch (rules : sentinels_map) (line : string) (self : Self)
    : outcome Self :=
  match rules with
  | [] => Ret self
  | (pattern, func) :: rules' =>
      match Re.search pattern line with
      | Some m => func m self
      | None => dispatch rules' line self
      end
  end.

Definition header : string := "linter.builtins = [".

(** The line loop of [process_sentinels]; [looking] is
    [looking_for_sentinel_header]. *)
Fixpoint scan (rules : sentinels_map) (looking : bool) (lines : list string)
    (self : Self) : outcome Self :=
  match lines with
  | [] => Ret self
  | line :: rest =>
      if looking && negb (Py.startswith line header)
      then scan rules true rest self
      else
        match Py.last_char line with
        | None => Raise IndexError
        | Some c =>
            if Ascii.eqb c "]" then Ret self
            else
              match dispatch rules line self with
              | Ret self' => scan rules false rest self'
              | Raise e => Raise e
              end
        end
  end.

(** ** POSIX paths ([os.path]) *)

Module Path.

Definition is_sep (c : ascii) : bool := Ascii.eqb c "/".
Definition is_empty (s : string) : bool := negb (Shlex.nonempty s).

(** [os.path.join(a, b)] *)
Definition join (a b : string) : string :=
  if Py.startswith b "/" then b
  else if is_empty a || (match Py.last_char a with Some c => is_sep c | None => false end)
       then a +:+ b
       else a +:+ "/" +:+ b.

(** the component loop of [normpath]; [new_comps] is kept reversed *)
Fixpoint norm_comps (initial_slashes : bool) (new_comps comps : list string)
    : list string :=
  match comps with
  | [] => rev new_comps
  | comp :: rest =>
      if String.eqb comp "" || String.eqb comp "." then
        norm_comps initial_slashes new_comps rest
      else if negb (String.eqb comp "..")
              || (negb initial_slashes && (match new_comps with [] => true | _ => false end))
              || (match new_comps with c :: _ => String.eqb c ".." | [] => false end)
      then norm_comps initial_slashes (comp :: new_comps) rest
      else norm_comps initial_slashes (tail new_comps) rest
  end.

(** [os.path.normpath] *)
Definition normpath (path : string) : string :=
  if is_empty path then "." else
  let comps := norm_comps (Py.startswith path "/") [] (Py.split "/" path) in
  let body := Py.join "/" comps in
  if Py.startswith path "/" then
    if Py.startswith path "//" && negb (Py.startswith path "///")
    then "//" +:+ body else "/" +:+ body
  else if is_empty body then "." else body.

(** [os.path.abspath], relative to the working directory [wd] *)
Definition abspath (wd path : string) : string :=
  normpath (if Py.startswith path "/" then path else join wd path).

(** [(p[:i], p[i:])] for [i = p.rfind("/") + 1] *)
Fixpoint split_last (p : string) : string * string :=
  match p with
  | EmptyString => ("", "")
  | String c p' =>
      let (h, t) := split_last p' in
      if is_sep c then (String c h, t)
      else match h with
           | EmptyString => ("", String c t)
           | _ => (String c h, t)
           end
  end.

Fixpoint all_sep (s : string) : bool :=
  match s with
  | EmptyString => true
  | String c s' => is_sep c && all_sep s'
  end.

(** [s.rstrip("/")] *)
Fixpoint rstrip_sep (s : string) : string :=
  match s with
  | EmptyString => ""
  | String c s' =>
      match rstrip_sep s' with
      | EmptyString => if is_sep c then "" else String c ""
      | r => String c r
      end
  end.

(** [os.path.dirname] *)
Definition dirname (p : string) : string :=
  let head := fst (split_last p) in
  if Shlex.nonempty head && negb (all_sep head) then rstrip_sep head else head.

(** [os.path.basename] *)
Definition basename (p : string) : string := snd (split_last p).

Fixpoint common_len (a b : list string) : nat :=
  match a, b with
  | x :: a', y :: b' => if String.eqb x y then S (common_len a' b') else 0%nat
  | _, _ => 0%nat
  end.

Definition parts (p : string) : list string :=
  List.filter Shlex.nonempty (Py.split "/" p).

(** [os.path.relpath(path, start)]; [None] is the [ValueError] raised for
    an empty [path]. *)
Definition relpath (wd path start : string) : option string :=
  if is_empty path then None else
  let start_list := parts (abspath wd start) in
  let path_list := parts (abspath wd path) in
  let i := common_len start_list path_list in
  let rel_list := repeat ".." (length start_list - i) ++ drop i path_list in
  match rel_list with
  | [] => Some "."
  | _ => Some (Py.join "/" rel_list)
  end.

End Path.

(** ** The host: environment, file system and child processes *)

Record Call := mkCall { call_cwd : string; call_argv : list string }.

(** [returncode] is the exit status, or negative when the child was
    killed by a signal. *)
Inductive Completed :=
  | Exited (returncode : Z) (stdout stderr : string)
  | LaunchError.                  (* the program could not be started *)

Record Host := {
  environ : string -> option string;    (* os.environ.get *)
  getcwd : string;                      (* os.getcwd() at start-up *)
  isdir : string -> bool;               (* os.path.isdir *)
  chdir_ok : string -> bool;            (* whether os.chdir succeeds *)
  which : string -> option string;      (* shutil.which *)
  (** outcome of a child process, given the calls made before it *)
  spawn : list Call -> Call -> Completed;
}.

(** The process state the program changes: working directory and the
    child processes launched so far, oldest first. *)
Record Proc := mkProc { cwd : string; calls : list Call }.

Definition M (A : Type) : Type := Proc -> outcome A * Proc.

Definition ret {A} (a : A) : M A := fun p => (Ret a, p).
Definition raise {A} (e : exn) : M A := fun p => (Raise e, p).
Definition bind {A B} (m : M A) (k : A -> M B) : M B := fun p =>
  match m p with
  | (Ret a, p') => k a p'
  | (Raise e, p') => (Raise e, p')
  end.
Definition lift {A} (o : outcome A) : M A := fun p => (o, p).

Notation "'let*' x ':=' m 'in' k" := (bind m (fun x => k))
  (at level 10, x pattern, m at level 100, k at level 200).

(** [for x in l: s = body(x, s)] *)
Fixpoint for_each {A S} (l : list A) (body : A -> S -> M S) (s : S) : M S :=
  match l with
  | [] => ret s
  | x :: l' => let* s' := body x s in for_each l' body s'
  end.

(** [argparse.Namespace] fields used by the batch mode *)
Record Namespace := { mode : string; mode_require : bool }.

(** [dict[str, set[str]]] in insertion order *)
Abbreviation dir_info := (list (string * gset string)).

(** [d.setdefault(file_dir, set()).add(abspath)], keeping insertion order *)
Fixpoint dir_add (file_dir abspath : string) (d : dir_info) : dir_info :=
  match d with
  | [] => [(file_dir, {[abspath]})]
  | (k, fs) :: d' =>
      if String.eqb k file_dir then (k, fs ∪ {[abspath]}) :: d'
      else (k, fs) :: dir_add file_dir abspath d'
  end.

(** order of dictionary items by key (keys are distinct) *)
Definition key_le {A} : relation (Z * A) := fun x y => x.1 ≤ y.1.
Definition key_ge {A} : relation (nat * A) := fun x y => (y.1 ≤ x.1)%nat.

Global Instance key_le_dec {A} : RelDecision (@key_le A).
Proof. intros x y. unfold key_le. apply _. Defined.
Global Instance key_ge_dec {A} : RelDecision (@key_ge A).
Proof. intros x y. unfold key_ge. apply _. Defined.

(** [sorted(mode.items())] *)
Definition sorted_items (m : cmdseq) : list (Z * list string) :=
  merge_sort key_le (map_to_list m).

(** [sorted(files_by_depth.items(), reverse=True)] *)
Definition sorted_reverse (m : gmap nat dir_info) : list (nat * dir_info) :=
  merge_sort key_ge (map_to_list m).

(** [args.index("--")] *)
Fixpoint index (x : string) (l : list string) : option nat :=
  match l with
  | [] => None
  | y :: l' => if String.eqb y x then Some 0%nat else S <$> index x l'
  end.

(** [BatchMode._get_paths_from_args] *)
Definition _get_paths_from_args (args : list string) : bool * list string :=
  match index "--" args with
  | Some filelist_delim =>
      if (0 <? filelist_delim)%nat then (false, take filelist_delim args)
      else (true, drop (1 + filelist_delim) args)
  | None => (true, args)
  end.

Section Program.
Context (host : Host) (args : Namespace).

Definition _skip : option string := environ host "RUFFWRAP_SKIP".
Definition _initwd : string := getcwd host.

(** [ModeBase.ruff]: the command array for the tool. *)
Definition ruff (self : Self) (cmdargs : list string) : outcome (list string) :=
  let exec :=
    if truthy _skip then environ host "RUFFWRAP_EXEC"
    else if Shlex.nonempty (_exec self) then Some (_exec self) else None in
  let exec :=
    match exec with
    | Some e => Some e
    | None =>
        match which host "ruff" with
        | Some e => Some e
        | None =>
            match which host "uvx" with
            | Some e => Some (if Shlex.nonempty e then e +:+ " ruff" else e)
            | None => None
            end
        end
    end in
  match exec with
  | None => Raise FileNotFoundError
  | Some e =>
      match Shlex.split e with
      | None => Raise ValueError
      | Some exec => Ret (exec ++ cmdargs)
      end
  end.

(** start a child process in the current directory and wait for it *)
Definition subprocess (argv : list string) : M Completed := fun p =>
  let c := mkCall (cwd p) argv in
  (Ret (spawn host (calls p) c), mkProc (cwd p) (calls p ++ [c])).

(** [os.chdir] *)
Definition chdir (d : string) : M unit := fun p =>
  if chdir_ok host d then (Ret tt, mkProc d (calls p)) else (Raise OSError, p).

Definition show_settings_args : list string :=
  [ "check"; "--show-settings";
    "--config"; "include = [ '*', '.*' ]";
    "--config"; "exclude = [ '*/*' ]";
    "--config"; "cache-dir = '/dev/null'";
    "--no-cache" ].

(** [ModeBase.process_sentinels] *)
Definition process_sentinels (rules : sentinels_map) (self : Self) : M Self :=
  let* argv := lift (ruff self show_settings_args) in
  let* result := subprocess argv in
  match result with
  | LaunchError => raise OSError
  | Exited returncode stdout stderr =>
      if returncode =? 0 then
        lift (scan rules true (Py.splitlines stdout) self)
      else if Py.contains "No files found under the given path" stderr
      then ret self
      else raise (CalledProcessError returncode)
  end.

(** [subprocess.check_output(argv).decode("utf-8")] *)
Definition check_output (argv : list string) : M string :=
  let* result := subprocess argv in
  match result with
  | LaunchError => raise OSError
  | Exited returncode stdout _ =>
      if returncode =? 0 then ret stdout
      else raise (CalledProcessError returncode)
  end.

(** [subprocess.check_call(argv)] *)
Definition check_call (argv : list string) : M unit :=
  let* result := subprocess argv in
  match result with
  | LaunchError => raise OSError
  | Exited returncode _ _ =>
      if returncode =? 0 then ret tt
      else raise (CalledProcessError returncode)
  end.

(** [os.path.relpath(os.path.dirname(abspath), self._initwd)] *)
Definition file_dir_of (abspath : string) : option string :=
  Path.relpath _initwd (Path.dirname abspath) _initwd.

(** one step of the loop of [_get_files_by_depth] *)
Definition files_step (files_by_depth : gmap nat dir_info) (path : string)
    : outcome (gmap nat dir_info) :=
  if isdir host path then Ret files_by_depth
  else
    let abspath := Path.abspath _initwd path in
    match file_dir_of abspath with
    | None => Raise ValueError
    | Some file_dir =>
        let depth := Py.count "/" file_dir in
        let d := match files_by_depth !! depth with Some d => d | None => [] end in
        Ret (<[depth := dir_add file_dir abspath d]> files_by_depth)
    end.

Fixpoint files_loop (files_by_depth : gmap nat dir_info) (paths : list string)
    : outcome (gmap nat dir_info) :=
  match paths with
  | [] => Ret files_by_depth
  | path :: paths' =>
      match files_step files_by_depth path with
      | Ret f => files_loop f paths'
      | Raise e => Raise e
      end
  end.

(** [BatchMode._get_files_by_depth] *)
Definition _get_files_by_depth (paths : list string) : outcome (gmap nat dir_info) :=
  files_loop ∅ paths.

(** the [for _, cmd in sorted(mode.items())] loop of [run] *)
Fixpoint run_sequence (self : Self) (cmds : list (Z * list string))
    (paths : list string) : M unit :=
  match cmds with
  | [] => ret tt
  | (_, cmd) :: cmds' =>
      let* argv := lift (ruff self (cmd ++ paths)) in
      let* _ := check_call argv in
      run_sequence self cmds' paths
  end.

(** the [try ... except subprocess.CalledProcessError] around it: the
    new value of [returncode] *)
Definition try_sequence (self : Self) (cmds : list (Z * list string))
    (paths : list string) (returncode : Z) : M Z := fun p =>
  match run_sequence self cmds paths p with
  | (Ret _, p') => (Ret returncode, p')
  | (Raise (CalledProcessError rc), p') => (Ret (Z.max rc returncode), p')
  | (Raise e, p') => (Raise e, p')
  end.

(** the files of the bucket the tool reports as in scope, by base name *)
Definition in_scope_files (self : Self) (abs_paths : gset string) : M (list string) :=
  let* argv := lift (ruff self ["check"; "--show-files"]) in
  let* out := check_output argv in
  ret (Path.basename <$> filter (fun file => file ∈ abs_paths) (Py.splitlines out)).

(** the part of the loop body after [process_sentinels] (lines 572-601):
    the result is the new value of [returncode] *)
Definition run_mode (self : Self) (abs_paths : gset string) (returncode : Z) : M Z :=
  match _modes self !! mode args with
  | None =>
      if mode_require args then ret (Z.max 1 returncode) else ret returncode
  | Some m =>
      let* paths := in_scope_files self abs_paths in
      match paths with
      | [] => ret returncode
      | _ => try_sequence self (sorted_items m) paths returncode
      end
  end.

(** body of the inner loop of [BatchMode.run]: one directory bucket *)
Definition bucket_body (bucket : string * gset string) (returncode : Z) : M Z :=
  let '(dir_path, abs_paths) := bucket in
  let abs_dir_path := _initwd +:+ "/" +:+ dir_path in
  let* _ := chdir abs_dir_path in
  let* self := process_sentinels BatchMode_sentinels_map _reset in
  run_mode self abs_paths returncode.

(** the two nested loops of [BatchMode.run] *)
Definition run_buckets (groups : list (nat * dir_info)) (returncode : Z) : M Z :=
  for_each groups (fun g rc => for_each g.2 bucket_body rc) returncode.

(** [BatchMode.run] *)
Definition run (argv : list string) : M Z :=
  if truthy _skip then ret 0
  else
    let '(paths_are_good, paths) := _get_paths_from_args argv in
    if negb paths_are_good then ret 3
    else
      let* files_by_depth := lift (_get_files_by_depth paths) in
      run_buckets (sorted_reverse files_by_depth) 0.

End Program.

(** ** Single mode *)

(** How [SingleMode.run] ends: the process image is replaced by the
    command, the method returns a code, an exception of the modelled
    kinds escapes, or the [except OSError] handler itself fails with
    [UnboundLocalError] because [execargs] was never assigned. *)
Inductive single_outcome :=
  | Replaced (execargs : list string)
  | Returned (code : Z)
  | Escaped (e : exn)
  | EscapedUnboundLocalError.

(** the NUL character, as a string *)
Definition nul_char : string := String "000" EmptyString.

Section Single.
Context (host : Host).
(** whether [os.execvp(execargs[0], execargs)] succeeds *)
Context (execvp_ok : list string -> bool).

(** [SingleMode.run]; [os.execvp] raises [ValueError], which the
    handler does not catch, when the first element of the argument vector
    is empty or an argument holds a NUL character *)
Definition SingleMode_run (passthrough_args : list string)
    : Proc -> single_outcome * Proc := fun p =>
  let '(discovered, p1) :=
    if truthy (_skip host) then (Ret _reset, p)
    else process_sentinels host ModeBase_sentinels_map _reset p in
  match discovered with
  | Raise e => (Escaped e, p1)
  | Ret self =>
      match ruff host self passthrough_args with
      | Raise FileNotFoundError | Raise OSError => (EscapedUnboundLocalError, p1)
      | Raise e => (Escaped e, p1)
      | Ret [] => (Escaped IndexError, p1)
      | Ret (file :: rest) =>
          let execargs := file :: rest in
          if Path.is_empty file || existsb (Py.contains nul_char) execargs
          then (Escaped ValueError, p1)
          else if execvp_ok execargs then (Replaced execargs, p1)
          else (Returned 200, p1)
      end
  end.

End Single.

(** ** Concrete hosts and texts used in examples *)

Definition nl : string := String "010" EmptyString.

(** [os.environ[name] = v] (or its removal) *)
Definition setenv (name : string) (v : option string) (host : Host) : Host :=
  {| environ := fun n => if String.eqb n name then v else environ host n;
     getcwd := getcwd host; isdir := isdir host; chdir_ok := chdir_ok host;
     which := which host; spawn := spawn host |}.

(** a settings dump declaring mode [m] by three indexed commands *)
Definition dump_m : string :=
  "linter.allowed_confusables = []" +:+ nl +:+
  "linter.builtins = [" +:+ nl +:+
  "    __RUFFWRAP_EXEC__uvx ruff@0.9," +:+ nl +:+
  "    __RUFFWRAP_MODE_m_CMD_5__check --fix," +:+ nl +:+
  "    __RUFFWRAP_MODE_m_CMD_0__format," +:+ nl +:+
  "    __RUFFWRAP_MODE_m_CMD_2__lint," +:+ nl +:+
  "]" +:+ nl +:+
  "linter.dummy_variable_rgx = ^_$" +:+ nl.

(** A host in [/w] with [ruff] on the search path; directory [a] exists;
    the settings dump is [dump] everywhere; the tool reports [x.py] and
    [y.py] of the current directory as in scope; a command whose
    arguments contain the [failing] word, if one is given, exits with
    status 2, all others with 0. *)
Definition mk_host (dump : string) (failing : option string) : Host := {|
  environ := fun _ => None;
  getcwd := "/w";
  isdir := fun p => String.eqb p "a";
  chdir_ok := fun _ => true;
  which := fun n => if String.eqb n "ruff" then Some "/usr/bin/ruff" else None;
  spawn := fun _ c =>
    if bool_decide ("--show-settings" ∈ call_argv c) then Exited 0 dump ""
    else if bool_decide ("--show-files" ∈ call_argv c) then
      Exited 0 (call_cwd c +:+ "/x.py" +:+ nl +:+ call_cwd c +:+ "/y.py" +:+ nl) ""
    else if bool_decide (failing ∈ Some <$> call_argv c) then Exited 2 "" ""
    else Exited 0 "" "" |}.

(** the [lint] step fails *)
Definition host_w : Host := mk_host dump_m (Some "lint").
(** every step succeeds *)
Definition host_ok : Host := mk_host dump_m None.

(** [host_w] with nothing on the search path *)
Definition host_nopath : Host := {|
  environ := environ host_w; getcwd := getcwd host_w; isdir := isdir host_w;
  chdir_ok := chdir_ok host_w; which := fun _ => None; spawn := spawn host_w |}.

(** [host_w] where no directory can be entered *)
Definition host_locked : Host := {|
  environ := environ host_w; getcwd := getcwd host_w; isdir := isdir host_w;
  chdir_ok := fun _ => false; which := which host_w; spawn := spawn host_w |}.

Definition start : Proc := mkProc "/w" [].

(** ** Notions used in the statements *)

(** names with a standard definition *)
Definition builtin_modes : list string := ["hook"; "hook-fix"; "verify"; "enroll"].

(** the buckets in the order the two nested loops visit them *)
Definition bucket_order (groups : list (nat * dir_info)) : list (string * gset string) :=
  mjoin (snd <$> groups).

(** The return code each bucket yields on its own, in visiting order. *)
Fixpoint bucket_codes (host : Host) (args : Namespace)
    (buckets : list (string * gset string)) : M (list Z) :=
  match buckets with
  | [] => ret []
  | b :: bs =>
      let* c := bucket_body host args b 0 in
      let* cs := bucket_codes host args bs in
      ret (c :: cs)
  end.

(** the commands declared by a list of indexed-command sentinels, in
    declaration order *)
Definition declare_all (name : string) (decls : list (Z * list string))
    (self : Self) : Self :=
  foldl (fun s d => declare_cmd name d.1 d.2 s) self decls.

Definition collect (decls : list (Z * list string)) (d : cmdseq) : cmdseq :=
  foldl (fun d x => <[x.1 := x.2]> d) d decls.

(** the call the sequence makes for one item of the mode *)
Definition call_of (exec paths : list string) (wd : string)
    (x : Z * list string) : Call :=
  mkCall wd (exec ++ x.2 ++ paths).

(** the sequence the orchestrator gets for mode [name] from sentinel lines *)
Definition declared (name : string) (lines : list string)
    : option (list (Z * list string)) :=
  match scan BatchMode_sentinels_map false lines _reset with
  | Ret self => sorted_items <$> _modes self !! name
  | Raise _ => None
  end.

(** what the table holds after the paths [done] have been processed *)
Record grouped (host : Host) (done : list string) (fbd : gmap nat dir_info) : Prop := {
  grouped_sound n d k fs f :
    fbd !! n = Some d -> (k, fs) ∈ d -> f ∈ fs ->
    exists p, p ∈ done /\ isdir host p = false /\ f = Path.abspath (_initwd host) p /\
              file_dir_of host f = Some k;
  grouped_complete p :
    p ∈ done -> isdir host p = false ->
    exists k d fs, file_dir_of host (Path.abspath (_initwd host) p) = Some k /\
                   fbd !! Py.count "/" k = Some d /\ (k, fs) ∈ d /\ Path.abspath (_initwd host) p ∈ fs;
  grouped_nodup n d : fbd !! n = Some d -> NoDup d.*1;
  grouped_depth n d k fs :
    fbd !! n = Some d -> (k, fs) ∈ d -> Py.count "/" k = n;
}.

(** depth of a bucket: separators in its directory key *)
Definition depth_of (b : string * gset string) : nat := Py.count "/" b.1.

(** directories of one table lie at the depth the table is filed under *)
Definition well_filed (groups : list (nat * dir_info)) : Prop :=
  forall n d k fs, (n, d) ∈ groups -> (k, fs) ∈ d -> Py.count "/" k = n.

(** the directories in visiting order, each with its depth *)
Definition visit_order (host : Host) (paths : list string)
    : outcome (list (string * nat)) :=
  match _get_files_by_depth host paths with
  | Ret files_by_depth =>
      Ret ((fun b => (b.1, depth_of b)) <$> bucket_order (sorted_reverse files_by_depth))
  | Raise e => Raise e
  end.

(** every character of [s] satisfies [P] *)
Fixpoint all_chars (P : ascii -> bool) (s : string) : bool :=
  match s with
  | EmptyString => true
  | String c s' => P c && all_chars P s'
  end.

(** a character [shlex] copies into the current word as it is *)
Definition plain_char (c : ascii) : bool :=
  negb (Shlex.whitespace c || Shlex.quote c || Shlex.escape c).

(** a non-empty word without blanks, quotes and backslashes *)
Definition plain_word (w : string) : bool :=
  Shlex.nonempty w && all_chars plain_char w.

(** the directory a bucket is processed in *)
Definition bucket_dir (host : Host) (b : string * gset string) : string :=
  _initwd host +:+ "/" +:+ b.1.

(** the items of a standard definition: commands numbered from [idx] *)
Fixpoint numbered (idx : Z) (cmds : list (list string)) : list (Z * list string) :=
  match cmds with
  | [] => []
  | cmd :: cmds' => (idx, cmd) :: numbered (idx + 1) cmds'
  end.

(** from [p] to [p'] the working directory is [wd] and every child
    process launched runs in [wd] *)
Definition stays_in (wd : string) (p p' : Proc) : Prop :=
  cwd p' = wd /\
  exists new, calls p' = calls p ++ new /\ Forall (fun c => call_cwd c = wd) new.

(** a computation started in [wd] launches in [wd] only *)
Definition launches_in (wd : string) {A} (m : M A) : Prop :=
  forall p, cwd p = wd -> stays_in wd p (m p).2.

(** What a line declares when the rule loop hands it to the
    indexed-command handler: the two rules tried first do not match, the
    indexed-command rule does, and the captured index and arguments
    convert.  The result is the mode name, the index and the tokens. *)
Definition indexed_command (line : string) : option (string * (Z * list string)) :=
  match Re.search _sentinel_exec_pattern line,
        Re.search _sentinel_default_definition_pattern line,
        Re.search _sentinel_cmd_pattern line with
  | None, None, Some m =>
      match Py.int (Re.group "IDX" m), Shlex.split (Re.group "ARGS" m) with
      | Some idx, Some args => Some (Re.group "MODE" m, (idx, args))
      | _, _ => None
      end
  | _, _, _ => None
  end.

(** [line] is an indexed-command sentinel line of mode [name] declaring
    [d], and does not end the block *)
Definition cmd_line (name : string) (line : string) (d : Z * list string) : Prop :=
  (exists c, Py.last_char line = Some c /\ Ascii.eqb c "]" = false) /\
  indexed_command line = Some (name, d).

(** the command strings listed in [_get_hook_mode_default_definition] *)
Definition hook_listed (fix_arg : string) : list string :=
  [ "check " +:+ fix_arg;
    "format";
    "check --fix-only --select RUF100 --quiet";
    "check --add-noqa --quiet";
    "format --quiet";
    "check --fix-only --select RUF100 --quiet";
    "check --add-noqa --quiet";
    "check --exit-zero --no-fix --output-format=json-lines";
    "format --quiet --check" ].

(** the command strings listed for each built-in mode, in source order *)
Definition listed_commands (name : string) : list string :=
  if String.eqb name "hook" then hook_listed "--no-fix"
  else if String.eqb name "hook-fix" then hook_listed "--fix"
  else if String.eqb name "verify" then
    [ "check --no-fix --no-cache --config " +:+ quoted "cache-dir = '/dev/null'";
      "format --check --no-cache --config " +:+ quoted "cache-dir = '/dev/null'" ]
  else if String.eqb name "enroll" then
    [ "format";
      "check --fix-only --select PLR2044 --quiet";
      "check --add-noqa";
      "format --quiet";
      "check --fix-only --select RUF100 --quiet";
      "check --add-noqa --quiet";
      "format --quiet";
      "check --add-noqa --quiet";
      "format --quiet";
      "check --no-fix --quiet" ]
  else [].

(** ** The executable resolver *)

Section Resolver.
Context (host : Host).

Lemma skip_setenv_exec v :
  _skip (setenv "RUFFWRAP_EXEC" v host) = _skip host.
Proof. reflexivity. Qed.

(** With the skip flag set the sentinel override plays no part. *)
Lemma ruff_skip_ignores_sentinel self self' cmdargs :
  truthy (_skip host) = true ->
  ruff host self cmdargs = ruff host self' cmdargs.
Proof. intros Hs. unfold ruff. now rewrite Hs. Qed.

(** With the skip flag set and the default given, the default is used. *)
Lemma ruff_skip_uses_default self e cmdargs :
  truthy (_skip host) = true ->
  environ host "RUFFWRAP_EXEC" = Some e ->
  ruff host self cmdargs =
    match Shlex.split e with
    | Some exec => Ret (exec ++ cmdargs)
    | None => Raise ValueError
    end.
Proof. intros Hs He. unfold ruff. rewrite Hs, He. reflexivity. Qed.

(** Without an executable on the search path and without override the
    resolver raises. *)
Lemma ruff_not_found self cmdargs :
  truthy (_skip host) = false ->
  _exec self = "" ->
  which host "ruff" = None -> which host "uvx" = None ->
  ruff host self cmdargs = Raise FileNotFoundError.
Proof.
  intros Hs He Hr Hu. unfold ruff. rewrite Hs, He, Hr, Hu. reflexivity.
Qed.
End Resolver.

(** C1 (what the code does instead): when the skip flag is unset the
    resolver never reads the environment default; changing or removing
    [RUFFWRAP_EXEC] leaves the resolved command unchanged, so without a
    sentinel override the search path decides even when the default is set. *)
Theorem ruff_unskipped_ignores_environment_default
    (host : Host) (v : option string) (self : Self) (cmdargs : list string) :
  truthy (_skip host) = false ->
  ruff (setenv "RUFFWRAP_EXEC" v host) self cmdargs = ruff host self cmdargs.
Proof.
  intros Hs. unfold ruff. rewrite skip_setenv_exec, Hs. reflexivity.
Qed.

Lemma ruff_unskipped_ignores_environment_default_witness :
  truthy (_skip host_w) = false /\
  ruff (setenv "RUFFWRAP_EXEC" (Some "/opt/ruff/bin/ruff") host_w) _reset ["check"]
    = Ret ["/usr/bin/ruff"; "check"].
Proof.
  split; [reflexivity|].
  rewrite (ruff_unskipped_ignores_environment_default host_w
             (Some "/opt/ruff/bin/ruff") _reset ["check"]); reflexivity.
Defined.

(** ** The sentinel parser *)

Section Scan.
Context (rules : sentinels_map).

Lemma scan_skip line rest self :
  Py.startswith line header = false ->
  scan rules true (line :: rest) self = scan rules true rest self.
Proof. intros H. cbn [scan]. rewrite H. reflexivity. Qed.

Lemma scan_no_header lines self :
  Forall (fun line => Py.startswith line header = false) lines ->
  scan rules true lines self = Ret self.
Proof.
  induction 1 as [|line rest Hline _ IH]; [reflexivity|].
  rewrite scan_skip by assumption. exact IH.
Qed.

(** Scanning stops at a line that ends the block, once the header has
    been seen (before that line, or as that line). *)
Lemma scan_stops looking pre t post self :
  looking = false \/ Exists (fun l => Py.startswith l header = true) (pre ++ [t]) ->
  Py.last_char t = Some "]"%char ->
  scan rules looking (pre ++ t :: post) self = scan rules looking (pre ++ [t]) self.
Proof.
  intros Hh Ht. revert looking self Hh.
  induction pre as [|line pre IH]; intros looking self Hh.
  - cbn [app scan].
    assert (looking && negb (Py.startswith t header) = false) as ->.
    { destruct Hh as [->|Hh]; [reflexivity|].
      apply Exists_cons in Hh as [->|Hh]; [apply andb_false_r|].
      now apply Exists_nil in Hh. }
    now rewrite Ht.
  - cbn [app scan].
    destruct (looking && negb (Py.startswith line header)) eqn:E.
    + apply IH. right. destruct Hh as [->|Hh]; [discriminate|].
      cbn [app] in Hh. apply Exists_cons in Hh as [Hl|Hh]; [|exact Hh].
      rewrite Hl in E. now rewrite andb_false_r in E.
    + destruct (Py.last_char line) as [c|]; [|reflexivity].
      destruct (Ascii.eqb c "]"); [reflexivity|].
      destruct (dispatch rules line self) as [self'|e]; [|reflexivity].
      apply IH. now left.
Qed.

(** An empty line inside the block makes [line[-1]] fail. *)
Lemma scan_empty_line rest self :
  scan rules false ("" :: rest) self = Raise IndexError.
Proof. reflexivity. Qed.
End Scan.

(** C9: a text without a header line leaves the state untouched; and
    once a line ending in the closing bracket is reached after (or as)
    the header line, the lines after it play no part in the result. *)
Theorem scan_frame (rules : sentinels_map) (text : string)
    (pre : list string) (t : string) (post post' : list string) (self : Self) :
  (Forall (fun line => Py.startswith line header = false) (Py.splitlines text) ->
   scan rules true (Py.splitlines text) self = Ret self) /\
  (Exists (fun l => Py.startswith l header = true) (pre ++ [t]) ->
   Py.last_char t = Some "]"%char ->
   scan rules true (pre ++ t :: post) self = scan rules true (pre ++ t :: post') self).
Proof.
  split.
  - apply scan_no_header.
  - intros Hh Ht. rewrite (scan_stops rules true pre t post) by auto.
    now rewrite (scan_stops rules true pre t post') by auto.
Qed.

Lemma scan_frame_witness :
  scan BatchMode_sentinels_map true
    (Py.splitlines ("a = [" +:+ nl +:+ "  __RUFFWRAP_EXEC__/bin/r," +:+ nl +:+ "]")) _reset
    = Ret _reset /\
  scan BatchMode_sentinels_map true
    ([header; "  __RUFFWRAP_EXEC__/bin/r,"] ++ "]" :: ["  __RUFFWRAP_EXEC__/bin/q,"]) _reset
    = scan BatchMode_sentinels_map true
    ([header; "  __RUFFWRAP_EXEC__/bin/r,"] ++ "]" :: []) _reset.
Proof.
  pose proof (scan_frame BatchMode_sentinels_map
    ("a = [" +:+ nl +:+ "  __RUFFWRAP_EXEC__/bin/r," +:+ nl +:+ "]")
    [header; "  __RUFFWRAP_EXEC__/bin/r,"] "]"
    ["  __RUFFWRAP_EXEC__/bin/q,"] [] _reset) as [H1 H2].
  split.
  - apply H1. vm_compute. repeat constructor.
  - apply H2; [|reflexivity]. apply Exists_cons_hd. reflexivity.
Defined.

(** C2 (the failing input): an indexed-command line with the two-digit
    index 10 matches no rule and leaves the registry as it was, whereas the
    same line with index 1 records the command. *)
Theorem cmd_sentinel_two_digit_index_ignored (self : Self) :
  Re.search _sentinel_cmd_pattern "    __RUFFWRAP_MODE_hook_CMD_10__check --fix," = None /\
  dispatch BatchMode_sentinels_map
    "    __RUFFWRAP_MODE_hook_CMD_10__check --fix," self = Ret self /\
  dispatch BatchMode_sentinels_map
    "    __RUFFWRAP_MODE_hook_CMD_1__check --fix," self
    = Ret (declare_cmd "hook" 1 ["check"; "--fix"] self).
Proof. repeat split; reflexivity. Qed.

(** The index class also allows a lone plus sign, on which [int] fails. *)
Example cmd_sentinel_plus_index (self : Self) :
  dispatch BatchMode_sentinels_map "    __RUFFWRAP_MODE_hook_CMD_+__check," self
    = Raise ValueError.
Proof. reflexivity. Qed.

(** C10 (the failing input): a header line, an empty line, then the
    terminator: the scan raises [IndexError] at the empty line, in the
    single mode and in the batch mode. *)
Theorem scan_empty_line_after_header_raises (self : Self) :
  Py.splitlines (header +:+ nl +:+ nl +:+ "]" +:+ nl) = [header; ""; "]"] /\
  scan ModeBase_sentinels_map true
    (Py.splitlines (header +:+ nl +:+ nl +:+ "]" +:+ nl)) self = Raise IndexError /\
  scan BatchMode_sentinels_map true
    (Py.splitlines (header +:+ nl +:+ nl +:+ "]" +:+ nl)) self = Raise IndexError.
Proof. repeat split; reflexivity. Qed.

(** ** The mode registry *)









(** The same through the parser: the sentinel line defines the mode
    (empty), the absent line leaves it undefined. *)
Example default_definition_line (self : Self) :
  dispatch BatchMode_sentinels_map
    "    __RUFFWRAP_MODE_nightly_DEFAULT_DEFINITION__," self
    = Ret {| _exec := _exec self; _modes := <["nightly" := ∅]> (_modes self) |}.
Proof. reflexivity. Qed.

(** ** Passthrough arguments *)

Lemma index_first (x : string) (l : list string) (n : nat) :
  index x l = Some n <->
  l !! n = Some x /\ forall j, (j < n)%nat -> l !! j ≠ Some x.
Proof.
  revert n. induction l as [|y l IH]; intros n; cbn [index].
  - split; [discriminate|]. intros [H _]. now rewrite lookup_nil in H.
  - destruct (String.eqb_spec y x) as [->|Hne].
    + split.
      * intros [= <-]. split; [reflexivity|]. intros j Hj. lia.
      * intros [H1 H2]. destruct n as [|n]; [reflexivity|].
        exfalso. apply (H2 0%nat); [lia|reflexivity].
    + destruct n as [|n].
      * split.
        -- destruct (index x l); discriminate.
        -- intros [[= ->] _]. congruence.
      * specialize (IH n). split.
        -- intros H. destruct (index x l) as [k|] eqn:E; [|discriminate].
           injection H as ->. destruct IH as [IH _].
           destruct (IH eq_refl) as [H1 H2]. split; [exact H1|].
           intros [|j] Hj; cbn; [congruence|]. apply H2. lia.
        -- intros [H1 H2]. destruct IH as [_ IH]. rewrite IH; [reflexivity|].
           split; [exact H1|]. intros j Hj. apply (H2 (S j)). lia.
Qed.

(** C7 (as amended): with the skip flag unset, when the first ["--"] of
    the passthrough list is at a position greater than zero, the run
    returns 3 and launches nothing; and when ["--"] is the first token the
    path list is exactly the tokens after it. *)
Theorem batch_run_delimiter
    (host : Host) (args : Namespace) (argv rest : list string) (n : nat) (p : Proc) :
  (truthy (_skip host) = false ->
   argv !! n = Some "--" -> (forall j, (j < n)%nat -> argv !! j ≠ Some "--") ->
   (0 < n)%nat ->
   run host args argv p = (Ret 3, p)) /\
  _get_paths_from_args ("--" :: rest) = (true, rest).
Proof.
  split; [|reflexivity].
  intros Hs Hn Hfirst Hpos.
  assert (index "--" argv = Some n) as Hi by (apply index_first; auto).
  unfold run, _get_paths_from_args. rewrite Hs, Hi.
  destruct n; [lia|]. reflexivity.
Qed.

Lemma batch_run_delimiter_witness :
  run host_w {| mode := "m"; mode_require := false |} ["foo"; "--"; "a.py"] start
    = (Ret 3, start) /\
  _get_paths_from_args ["--"; "a.py"] = (true, ["a.py"]).
Proof.
  pose proof (batch_run_delimiter host_w {| mode := "m"; mode_require := false |}
                ["foo"; "--"; "a.py"] ["a.py"] 1 start) as [H1 H2].
  split; [|exact H2].
  apply H1; [reflexivity|reflexivity| |lia].
  intros [|j] Hj; [discriminate|lia].
Defined.

(** C7 (as stated) fails twice: with the skip flag set the run returns 0
    although ["--"] is at position 1; and a list that starts with ["--"]
    and has another ["--"] at position 2 is accepted. *)
Lemma batch_run_delimiter_counterexample :
  (["foo"; "--"; "a.py"] !! 1%nat = Some "--" /\
   run (setenv "RUFFWRAP_SKIP" (Some "1") host_w)
       {| mode := "m"; mode_require := false |} ["foo"; "--"; "a.py"] start
     = (Ret 0, start)) /\
  (["--"; "a.py"; "--"; "b.py"] !! 2%nat = Some "--" /\
   _get_paths_from_args ["--"; "a.py"; "--"; "b.py"] = (true, ["a.py"; "--"; "b.py"])).
Proof. repeat split. Qed.

(** ** The batch orchestrator *)

Section Orchestrator.
Context (host : Host) (args : Namespace).

Lemma for_each_app {A S} (l1 l2 : list A) (body : A -> S -> M S) s p :
  for_each (l1 ++ l2) body s p =
    (let* s' := for_each l1 body s in for_each l2 body s') p.
Proof.
  revert s p. induction l1 as [|x l1 IH]; intros s p; [reflexivity|].
  cbn [app for_each]. unfold bind in *.
  destruct (body x s p) as [[s'|e] p']; [|reflexivity].
  apply IH.
Qed.

Lemma run_buckets_flat groups rc p :
  run_buckets host args groups rc p =
    for_each (bucket_order groups) (bucket_body host args) rc p.
Proof.
  unfold run_buckets, bucket_order. revert rc p.
  induction groups as [|g gs IH]; intros rc p; [reflexivity|].
  cbn [fmap list_fmap mjoin list_join for_each]. rewrite for_each_app.
  unfold bind.
  destruct (for_each g.2 (bucket_body host args) rc p) as [[rc'|e] p'];
    [|reflexivity].
  apply IH.
Qed.

Lemma ruff_prefix self exec cmdargs :
  ruff host self [] = Ret exec ->
  ruff host self cmdargs = Ret (exec ++ cmdargs).
Proof.
  unfold ruff. intros H.
  repeat match goal with
         | H : context [match ?x with _ => _ end] |- _ => destruct x
         end; try discriminate.
  all: injection H as <-; now rewrite app_nil_r.
Qed.

(** When resolution fails the bucket ends in the exception, right after
    the directory change. *)
Lemma bucket_body_not_found dir_path abs_paths rc p :
  truthy (_skip host) = false ->
  which host "ruff" = None -> which host "uvx" = None ->
  chdir_ok host (_initwd host +:+ "/" +:+ dir_path) = true ->
  bucket_body host args (dir_path, abs_paths) rc p =
    (Raise FileNotFoundError, mkProc (_initwd host +:+ "/" +:+ dir_path) (calls p)).
Proof.
  intros Hs Hr Hu Hc. unfold bucket_body, bind, chdir. rewrite Hc.
  unfold process_sentinels, bind, lift.
  rewrite (ruff_not_found host _reset) by auto. reflexivity.
Qed.

(** The return code a bucket yields from [rc] is the maximum of [rc]
    and the code it yields from 0. *)
Lemma bucket_body_shift b rc p :
  0 ≤ rc ->
  bucket_body host args b rc p =
    (let* c := bucket_body host args b 0 in ret (Z.max c rc)) p.
Proof.
  intros Hrc. destruct b as [dir_path abs_paths].
  unfold bucket_body, bind at 1 2 3 4 5.
  destruct (chdir host _ p) as [[[]|e] p1]; [|reflexivity].
  destruct (process_sentinels host _ _ p1) as [[self|e] p2]; [|reflexivity].
  unfold run_mode.
  destruct (_modes self !! mode args) as [m|].
  - unfold bind.
    destruct (in_scope_files host self abs_paths p2) as [[paths|e] p3];
      [|reflexivity].
    destruct paths as [|f paths].
    + unfold ret. f_equal. f_equal. lia.
    + unfold try_sequence.
      destruct (run_sequence host self (sorted_items m) (f :: paths) p3)
        as [[[]|e] p4].
      * unfold ret. f_equal. f_equal. lia.
      * destruct e; try reflexivity. unfold ret. f_equal. f_equal. lia.
  - destruct (mode_require args); unfold ret; f_equal; f_equal; lia.
Qed.

Lemma bucket_body_nonneg b rc p c p' :
  0 ≤ rc -> bucket_body host args b rc p = (Ret c, p') -> 0 ≤ c.
Proof.
  intros Hrc. rewrite bucket_body_shift by assumption. unfold bind, ret.
  destruct (bucket_body host args b 0 p) as [[c0|e] p0]; [|discriminate].
  intros [= <- <-]. lia.
Qed.

(** The running return code is the maximum of the per-bucket codes. *)
Lemma for_each_bucket_codes buckets rc p :
  0 ≤ rc ->
  for_each buckets (bucket_body host args) rc p =
    (let* cs := bucket_codes host args buckets in
     ret (Z.max rc (foldr Z.max 0 cs))) p.
Proof.
  revert rc p. induction buckets as [|b bs IH]; intros rc p Hrc.
  - cbn. unfold bind, ret. f_equal. f_equal. lia.
  - cbn [for_each bucket_codes]. unfold bind at 1.
    rewrite bucket_body_shift by assumption. unfold bind at 1 2 3 4, ret at 1.
    destruct (bucket_body host args b 0 p) as [[c|e] p1] eqn:Eb; [|reflexivity].
    assert (0 ≤ c) by (eapply bucket_body_nonneg; [|exact Eb]; lia).
    rewrite IH by lia. unfold bind, ret.
    destruct (bucket_codes host args bs p1) as [[cs|e] p2]; [|reflexivity].
    cbn [foldr]. f_equal. f_equal. lia.
Qed.
End Orchestrator.

(** C3 (as amended): in batch mode with the skip flag unset, when
    neither [ruff] nor [uvx] is on the search path, the first bucket visited
    ends the run with [FileNotFoundError]: whatever buckets follow, none is
    visited, nothing is launched and no return code is produced. *)
Theorem batch_resolution_failure_is_fatal
    (host : Host) (args : Namespace) (groups : list (nat * dir_info))
    (dir_path : string) (abs_paths : gset string)
    (rest : list (string * gset string)) (rc : Z) (p : Proc) :
  truthy (_skip host) = false ->
  which host "ruff" = None -> which host "uvx" = None ->
  bucket_order groups = (dir_path, abs_paths) :: rest ->
  chdir_ok host (_initwd host +:+ "/" +:+ dir_path) = true ->
  run_buckets host args groups rc p =
    (Raise FileNotFoundError, mkProc (_initwd host +:+ "/" +:+ dir_path) (calls p)).
Proof.
  intros Hs Hr Hu Ho Hc. rewrite run_buckets_flat, Ho. cbn [for_each].
  unfold bind. now rewrite bucket_body_not_found.
Qed.

Lemma batch_resolution_failure_is_fatal_witness :
  run_buckets host_nopath {| mode := "m"; mode_require := false |}
    [(1%nat, [("a/b", {["/w/a/b/x.py"]})]); (0%nat, [(".", {["/w/x.py"]})])] 0 start
  = (Raise FileNotFoundError, mkProc "/w/a/b" []).
Proof.
  apply (batch_resolution_failure_is_fatal host_nopath _ _ "a/b" {["/w/a/b/x.py"]}
           [(".", {["/w/x.py"]})]); reflexivity.
Defined.

(** C3 (as stated) fails: with two buckets and nothing on the search
    path the run raises at the first bucket instead of recording a result
    and going on to the second. *)
Lemma batch_resolution_failure_counterexample :
  run host_nopath {| mode := "m"; mode_require := false |} ["a/b/x.py"; "x.py"] start
  = (Raise FileNotFoundError, mkProc "/w/a/b" []).
Proof. vm_compute. reflexivity. Qed.

(** *** Order of the commands of a mode *)

Global Instance key_le_total {A} : Total (@key_le A).
Proof. intros x y. unfold key_le. lia. Qed.
Global Instance key_le_trans {A} : Transitive (@key_le A).
Proof. intros x y z. unfold key_le. lia. Qed.
Global Instance key_ge_total {A} : Total (@key_ge A).
Proof. intros x y. unfold key_ge. lia. Qed.
Global Instance key_ge_trans {A} : Transitive (@key_ge A).
Proof. intros x y z. unfold key_ge. lia. Qed.

Lemma sorted_items_perm (m : cmdseq) : sorted_items m ≡ₚ map_to_list m.
Proof. apply merge_sort_Permutation. Qed.

Lemma strictly_ascending {A} (l : list (Z * A)) :
  StronglySorted key_le l -> NoDup l.*1 -> StronglySorted Z.lt l.*1.
Proof.
  induction 1 as [|x l Hs IH Hx]; intros Hnd; cbn; [constructor|].
  apply NoDup_cons in Hnd as [Hnotin Hnd]. constructor; [auto|].
  apply Forall_fmap, Forall_forall. intros y Hy. cbn.
  rewrite Forall_forall in Hx. specialize (Hx y Hy). unfold key_le in Hx.
  assert (x.1 ≠ y.1).
  { intros Heq. apply Hnotin. rewrite Heq. apply list_elem_of_fmap.
    exists y; auto. }
  lia.
Qed.

Lemma sorted_items_ascending (m : cmdseq) :
  StronglySorted Z.lt (sorted_items m).*1.
Proof.
  apply strictly_ascending.
  - apply StronglySorted_merge_sort; apply _.
  - rewrite sorted_items_perm. apply NoDup_fst_map_to_list.
Qed.

Lemma declare_all_cons name x decls self :
  declare_all name (x :: decls) self =
    declare_all name decls (declare_cmd name x.1 x.2 self).
Proof. reflexivity. Qed.

Lemma collect_cons x decls (d : cmdseq) :
  collect (x :: decls) d = collect decls (<[x.1 := x.2]> d).
Proof. reflexivity. Qed.

Lemma declare_all_modes name decls self :
  _modes (declare_all name decls self) !! name =
    match decls with
    | [] => _modes self !! name
    | _ => Some (collect decls (default ∅ (_modes self !! name)))
    end.
Proof.
  revert self. induction decls as [|x decls IH]; intros self; [reflexivity|].
  rewrite declare_all_cons, collect_cons, IH.
  unfold declare_cmd. cbn [_modes]. rewrite lookup_insert_eq. cbn [default].
  destruct (_modes self !! name); destruct decls; reflexivity.
Qed.

Lemma collect_perm decls (d : cmdseq) :
  NoDup decls.*1 -> (forall i, i ∈ decls.*1 -> d !! i = None) ->
  map_to_list (collect decls d) ≡ₚ decls ++ map_to_list d.
Proof.
  revert d. induction decls as [|[i a] decls IH]; intros d Hnd Hfresh; [reflexivity|].
  cbn in Hnd. apply NoDup_cons in Hnd as [Hnotin Hnd].
  rewrite collect_cons, IH.
  - cbn [fst snd]. rewrite map_to_list_insert.
    + symmetry. apply Permutation_middle.
    + apply Hfresh. cbn. left.
  - assumption.
  - intros j Hj. cbn [fst snd]. rewrite lookup_insert_ne.
    + apply Hfresh. cbn. now right.
    + intros <-. contradiction.
Qed.

Section Sequence.
Context (host : Host) (self : Self) (exec paths : list string).
Hypothesis resolved : ruff host self [] = Ret exec.

(** The sequence launches a prefix of its commands, in list order. *)
Lemma run_sequence_calls cmds p :
  exists k,
    (run_sequence host self cmds paths p).2 =
      mkProc (cwd p) (calls p ++ take k (call_of exec paths (cwd p) <$> cmds)).
Proof.
  revert p. induction cmds as [|[i cmd] cmds IH]; intros p.
  - exists 0%nat. cbn. rewrite app_nil_r. now destruct p.
  - cbn [run_sequence]. unfold bind, lift.
    rewrite (ruff_prefix host self exec) by assumption.
    unfold check_call, bind, subprocess.
    destruct (spawn host (calls p) _) as [rc out err|].
    + destruct (rc =? 0).
      * unfold ret.
        destruct (IH (mkProc (cwd p)
                     (calls p ++ [mkCall (cwd p) (exec ++ cmd ++ paths)]))) as [k Hk].
        exists (S k). rewrite Hk. cbn [cwd calls fmap list_fmap take].
        now rewrite <- app_assoc.
      * exists 1%nat. reflexivity.
    + exists 1%nat. reflexivity.
Qed.

(** When every command exits with status 0, all of them are launched. *)
Lemma run_sequence_all cmds p :
  (forall h c, exists out err, spawn host h c = Exited 0 out err) ->
  run_sequence host self cmds paths p =
    (Ret tt, mkProc (cwd p) (calls p ++ (call_of exec paths (cwd p) <$> cmds))).
Proof.
  intros Hok. revert p. induction cmds as [|[i cmd] cmds IH]; intros p.
  - cbn. rewrite app_nil_r. now destruct p.
  - cbn [run_sequence]. unfold bind, lift.
    rewrite (ruff_prefix host self exec) by assumption.
    unfold check_call, bind, subprocess.
    destruct (Hok (calls p) (mkCall (cwd p) (exec ++ cmd ++ paths)))
      as (out & err & ->).
    cbn [Z.eqb]. unfold ret. rewrite IH. cbn [cwd calls fmap list_fmap].
    now rewrite <- app_assoc.
Qed.
End Sequence.

(** an indexed-command line inside the block records its command and
    the scan goes on *)
Lemma scan_cmd_line name line d rest self :
  cmd_line name line d ->
  scan BatchMode_sentinels_map false (line :: rest) self
    = scan BatchMode_sentinels_map false rest (declare_cmd name d.1 d.2 self).
Proof.
  intros [(c & Hc & Hnot) Hi]. cbn [scan andb]. rewrite Hc, Hnot.
  unfold indexed_command in Hi.
  unfold BatchMode_sentinels_map, ModeBase_sentinels_map. cbn [app dispatch].
  destruct (Re.search _sentinel_exec_pattern line); [discriminate|].
  destruct (Re.search _sentinel_default_definition_pattern line); [discriminate|].
  destruct (Re.search _sentinel_cmd_pattern line) as [m|]; [|discriminate].
  unfold _sentinel_cmd.
  destruct (Py.int (Re.group "IDX" m)) as [idx|]; [|discriminate].
  destruct (Shlex.split (Re.group "ARGS" m)) as [a|]; [|discriminate].
  injection Hi as <- <-. reflexivity.
Qed.

Lemma scan_cmd_lines name lines decls self :
  Forall2 (cmd_line name) lines decls ->
  scan BatchMode_sentinels_map false lines self = Ret (declare_all name decls self).
Proof.
  intros H. revert self. induction H as [|line d lines decls Hl _ IH]; intros self.
  - reflexivity.
  - rewrite (scan_cmd_line name line d) by assumption.
    rewrite IH. now rewrite declare_all_cons.
Qed.

Lemma try_sequence_proc host self cmds paths rc p :
  (try_sequence host self cmds paths rc p).2 = (run_sequence host self cmds paths p).2.
Proof.
  unfold try_sequence.
  destruct (run_sequence host self cmds paths p) as [[[]|e] p']; [reflexivity|].
  now destruct e.
Qed.

(** C6: sentinel lines that declare indexed commands of the requested
    mode with distinct indices (contiguous or not, in any order) are turned
    by the scan into a registry, and for that registry the orchestrator's
    loop body launches the declared commands in strictly ascending index
    order: what it launches after the file query is a prefix of the
    declared commands sorted by index, and all of them, with the return
    code unchanged, when every command succeeds. *)
Theorem indexed_commands_run_in_ascending_order
    (host : Host) (args : Namespace) (lines : list string)
    (decls : list (Z * list string)) (self0 : Self) :
  Forall2 (cmd_line (mode args)) lines decls ->
  decls ≠ [] -> NoDup decls.*1 -> _modes self0 !! mode args = None ->
  exists self sorted,
    scan BatchMode_sentinels_map false lines self0 = Ret self /\
    sorted ≡ₚ decls /\
    StronglySorted Z.lt sorted.*1 /\
    (forall abs_paths exec paths rc p p1,
       in_scope_files host self abs_paths p = (Ret paths, p1) ->
       paths ≠ [] ->
       ruff host self [] = Ret exec ->
       (exists k,
          (run_mode host args self abs_paths rc p).2 =
            mkProc (cwd p1)
              (calls p1 ++ take k (call_of exec paths (cwd p1) <$> sorted))) /\
       ((forall h c, exists out err, spawn host h c = Exited 0 out err) ->
        run_mode host args self abs_paths rc p =
          (Ret rc, mkProc (cwd p1)
                     (calls p1 ++ (call_of exec paths (cwd p1) <$> sorted))))).
Proof.
  intros Hlines Hne Hnd Hnone.
  exists (declare_all (mode args) decls self0), (sorted_items (collect decls ∅)).
  assert (_modes (declare_all (mode args) decls self0) !! mode args
          = Some (collect decls ∅)) as Hm.
  { rewrite declare_all_modes, Hnone. now destruct decls. }
  repeat split.
  - now apply scan_cmd_lines.
  - rewrite sorted_items_perm, collect_perm; auto.
    rewrite map_to_list_empty. now rewrite app_nil_r.
  - apply sorted_items_ascending.
  - unfold run_mode. rewrite Hm. unfold bind. rewrite H.
    destruct paths as [|f paths]; [contradiction|].
    rewrite try_sequence_proc. now apply run_sequence_calls.
  - intros Hok. unfold run_mode. rewrite Hm. unfold bind. rewrite H.
    destruct paths as [|f paths]; [contradiction|].
    unfold try_sequence. now rewrite (run_sequence_all host _ exec).
Qed.

Lemma indexed_commands_run_in_ascending_order_witness :
  exists self sorted,
    scan BatchMode_sentinels_map false
      [ "    __RUFFWRAP_MODE_m_CMD_5__check --fix,";
        "    __RUFFWRAP_MODE_m_CMD_0__format,";
        "    __RUFFWRAP_MODE_m_CMD_2__lint," ] _reset = Ret self /\
    sorted ≡ₚ [(5, ["check"; "--fix"]); (0, ["format"]); (2, ["lint"])] /\
    StronglySorted Z.lt sorted.*1 /\
    run_mode host_ok {| mode := "m"; mode_require := false |} self
      {["/w/a/b/x.py"]} 0 (mkProc "/w/a/b" []) =
      (Ret 0,
       mkProc "/w/a/b"
         ([mkCall "/w/a/b" ["/usr/bin/ruff"; "check"; "--show-files"]] ++
          (call_of ["/usr/bin/ruff"] ["x.py"] "/w/a/b" <$> sorted))).
Proof.
  destruct (indexed_commands_run_in_ascending_order host_ok
              {| mode := "m"; mode_require := false |}
              [ "    __RUFFWRAP_MODE_m_CMD_5__check --fix,";
                "    __RUFFWRAP_MODE_m_CMD_0__format,";
                "    __RUFFWRAP_MODE_m_CMD_2__lint," ]
              [(5, ["check"; "--fix"]); (0, ["format"]); (2, ["lint"])] _reset)
    as (self & sorted & Hscan & Hperm & Hsorted & Hrun).
  - repeat (apply Forall2_cons; split;
            [split; [eexists; split; reflexivity|vm_compute; reflexivity]|]).
    apply Forall2_nil_2.
  - discriminate.
  - vm_compute.
    repeat (constructor;
            [rewrite ?elem_of_cons, elem_of_nil; intuition discriminate|]).
    constructor.
  - reflexivity.
  - exists self, sorted. repeat split; [exact Hscan|exact Hperm|exact Hsorted|].
    vm_compute in Hscan. injection Hscan as <-.
    apply (Hrun {["/w/a/b/x.py"]} ["/usr/bin/ruff"] ["x.py"] 0 (mkProc "/w/a/b" [])
             (mkProc "/w/a/b"
                [mkCall "/w/a/b" ["/usr/bin/ruff"; "check"; "--show-files"]])).
    + vm_compute. reflexivity.
    + discriminate.
    + vm_compute. reflexivity.
    + intros h c. unfold host_ok, mk_host. cbn [spawn].
      repeat case_bool_decide; eauto.
      exfalso.
      match goal with
      | H : None ∈ Some <$> _ |- _ =>
          apply list_elem_of_fmap in H as (? & ? & _); discriminate
      end.
Defined.

(** The same through the parser and the orchestrator: the sentinels of
    [dump_m] declare indices 5, 0, 2 in that order; the three commands are
    launched in the order 0, 2, 5. *)
Example run_declared_order :
  call_argv <$> calls (run host_ok {| mode := "m"; mode_require := false |}
                         ["a/b/x.py"] start).2 =
    [ ["/usr/bin/ruff"] ++ show_settings_args;
      ["uvx"; "ruff@0.9"; "check"; "--show-files"];
      ["uvx"; "ruff@0.9"; "format"; "x.py"];
      ["uvx"; "ruff@0.9"; "lint"; "x.py"];
      ["uvx"; "ruff@0.9"; "check"; "--fix"; "x.py"] ].
Proof. vm_compute. reflexivity. Qed.

(** Every order of the three sentinel lines gives the same sequence. *)
Example declaration_order_irrelevant :
  declared "m" <$>
    permutations [ "    __RUFFWRAP_MODE_m_CMD_0__format,";
                   "    __RUFFWRAP_MODE_m_CMD_5__check --fix,";
                   "    __RUFFWRAP_MODE_m_CMD_2__lint," ] =
  replicate 6 (Some [(0, ["format"]); (2, ["lint"]); (5, ["check"; "--fix"])]).
Proof. vm_compute. reflexivity. Qed.

(** *** Failure of a step of the sequence *)

Lemma foldr_max_nonneg (cs : list Z) : 0 ≤ foldr Z.max 0 cs.
Proof. induction cs; cbn; lia. Qed.

(** The whole run returns the maximum of the per-bucket return codes. *)
Lemma run_aggregate host args argv paths files_by_depth p :
  truthy (_skip host) = false ->
  _get_paths_from_args argv = (true, paths) ->
  _get_files_by_depth host paths = Ret files_by_depth ->
  run host args argv p =
    (let* cs := bucket_codes host args (bucket_order (sorted_reverse files_by_depth)) in
     ret (foldr Z.max 0 cs)) p.
Proof.
  intros Hs Hp Hf. unfold run. rewrite Hs, Hp. cbn [negb].
  unfold bind at 1, lift. rewrite Hf, run_buckets_flat.
  rewrite for_each_bucket_codes by lia. unfold bind, ret.
  destruct (bucket_codes host args _ p) as [[cs|e] p']; [|reflexivity].
  pose proof (foldr_max_nonneg cs). f_equal. f_equal. lia.
Qed.

(** C4: in a bucket whose mode has the sequence [cmdA; cmdB; cmdC],
    where [cmdA] exits with 0 and [cmdB] with [c ≠ 0]: the bucket launches
    [cmdA] and [cmdB] and nothing after them, [c] enters the running
    maximum of the return code (for an exit status [c > 0] the bucket's own
    code is [c]), the loop goes on with the remaining buckets, and the
    run's return code is the maximum of the per-bucket codes (0 for an
    empty list). *)
Theorem sequence_failure_is_bucket_local
    (host : Host) (args : Namespace) (dir_path : string) (abs_paths : gset string)
    (rest : list (string * gset string)) (self : Self) (m : cmdseq)
    (iA iB iC : Z) (cmdA cmdB cmdC exec paths : list string)
    (outA errA outB errB : string) (c rc : Z) (p p1 p2 : Proc) :
  let abs_dir_path := _initwd host +:+ "/" +:+ dir_path in
  let callA := mkCall (cwd p2) (exec ++ cmdA ++ paths) in
  let callB := mkCall (cwd p2) (exec ++ cmdB ++ paths) in
  let p' := mkProc (cwd p2) (calls p2 ++ [callA; callB]) in
  chdir_ok host abs_dir_path = true ->
  process_sentinels host BatchMode_sentinels_map _reset
    (mkProc abs_dir_path (calls p)) = (Ret self, p1) ->
  _modes self !! mode args = Some m ->
  sorted_items m = [(iA, cmdA); (iB, cmdB); (iC, cmdC)] ->
  in_scope_files host self abs_paths p1 = (Ret paths, p2) ->
  paths ≠ [] ->
  ruff host self [] = Ret exec ->
  spawn host (calls p2) callA = Exited 0 outA errA ->
  spawn host (calls p2 ++ [callA]) callB = Exited c outB errB ->
  c ≠ 0 ->
  bucket_body host args (dir_path, abs_paths) rc p = (Ret (Z.max c rc), p') /\
  (0 < c -> bucket_codes host args [(dir_path, abs_paths)] p = (Ret [c], p')) /\
  for_each ((dir_path, abs_paths) :: rest) (bucket_body host args) rc p =
    for_each rest (bucket_body host args) (Z.max c rc) p' /\
  (forall groups q,
     run_buckets host args groups 0 q =
       (let* cs := bucket_codes host args (bucket_order groups) in
        ret (foldr Z.max 0 cs)) q).
Proof.
  intros abs_dir_path callA callB p' Hc Hs Hm Hsorted Hf Hne Hres HA HB Hc0.
  assert (forall rc, bucket_body host args (dir_path, abs_paths) rc p
                       = (Ret (Z.max c rc), p')) as Hbody.
  { clear rc. intros rc. unfold bucket_body, bind at 1 2, chdir.
    fold abs_dir_path. rewrite Hc, Hs.
    unfold run_mode. rewrite Hm. unfold bind at 1. rewrite Hf.
    destruct paths as [|f paths']; [contradiction|].
    rewrite Hsorted. unfold try_sequence. cbn [run_sequence].
    unfold bind, lift.
    rewrite !(ruff_prefix host self exec) by assumption.
    unfold check_call, bind, subprocess. cbn [cwd calls].
    fold callA. rewrite HA. cbn [Z.eqb]. unfold ret. cbn [cwd calls].
    fold callB. rewrite HB.
    destruct (Z.eqb_spec c 0) as [->|_]; [contradiction|].
    unfold raise. subst p'. now rewrite <- app_assoc. }
  split; [apply Hbody|]. split; [|split].
  - intros Hpos. cbn [bucket_codes]. unfold bind, ret. rewrite Hbody.
    now rewrite Z.max_l by lia.
  - cbn [for_each]. unfold bind. now rewrite Hbody.
  - intros groups q. rewrite run_buckets_flat, for_each_bucket_codes by lia.
    unfold bind, ret.
    destruct (bucket_codes host args _ q) as [[cs|e] q']; [|reflexivity].
    pose proof (foldr_max_nonneg cs). f_equal. f_equal. lia.
Qed.

Lemma sequence_failure_is_bucket_local_witness :
  exists p',
    bucket_body host_w {| mode := "m"; mode_require := false |}
      ("a/b", {["/w/a/b/x.py"]}) 0 start = (Ret (Z.max 2 0), p') /\
    call_argv <$> calls p' =
      [ ["/usr/bin/ruff"] ++ show_settings_args;
        ["uvx"; "ruff@0.9"; "check"; "--show-files"];
        ["uvx"; "ruff@0.9"; "format"; "x.py"];
        ["uvx"; "ruff@0.9"; "lint"; "x.py"] ].
Proof.
  eexists. split.
  - eapply proj1.
    eapply (sequence_failure_is_bucket_local host_w
              {| mode := "m"; mode_require := false |} "a/b" {["/w/a/b/x.py"]} []
              _ _ 0 2 5 ["format"] ["lint"] ["check"; "--fix"]
              ["uvx"; "ruff@0.9"] ["x.py"] "" "" "" "" 2 0 start).
    + reflexivity.
    + vm_compute. reflexivity.
    + vm_compute. reflexivity.
    + vm_compute. reflexivity.
    + vm_compute. reflexivity.
    + discriminate.
    + vm_compute. reflexivity.
    + vm_compute. reflexivity.
    + vm_compute. reflexivity.
    + discriminate.
  - vm_compute. reflexivity.
Defined.

(** ** The path grouper *)

Section PathFacts.

Lemma startswith_slash s :
  Py.startswith s "/" = true -> exists r, s = String "/" r.
Proof.
  destruct s as [|c r]; cbn [Py.startswith]; [discriminate|].
  destruct (Ascii.eqb_spec "/" c) as [<-|]; [eauto|discriminate].
Qed.

Lemma rstrip_sep_empty s : Path.rstrip_sep s = "" -> Path.all_sep s = true.
Proof.
  induction s as [|c s IH]; cbn; [reflexivity|].
  destruct (Path.rstrip_sep s); [|discriminate].
  destruct (Path.is_sep c); [auto|discriminate].
Qed.

Lemma dirname_absolute r : Path.dirname (String "/" r) ≠ "".
Proof.
  unfold Path.dirname. cbn [Path.split_last].
  destruct (Path.split_last r) as [h t].
  change (Path.is_sep "/") with true. cbn [fst Shlex.nonempty andb].
  destruct (Path.all_sep (String "/" h)) eqn:E; cbn [negb]; [discriminate|].
  intros H. apply rstrip_sep_empty in H. congruence.
Qed.

Lemma normpath_absolute r : exists r', Path.normpath (String "/" r) = String "/" r'.
Proof.
  unfold Path.normpath.
  change (Path.is_empty (String "/" r)) with false.
  change (Py.startswith (String "/" r) "/") with true. cbn iota.
  destruct (_ && _); cbn; eauto.
Qed.

Lemma abspath_absolute wd path :
  Py.startswith wd "/" = true ->
  exists r, Path.abspath wd path = String "/" r.
Proof.
  intros Hwd. apply startswith_slash in Hwd as [w ->].
  unfold Path.abspath.
  destruct (Py.startswith path "/") eqn:E.
  - apply startswith_slash in E as [r ->]. apply normpath_absolute.
  - unfold Path.join. rewrite E.
    change (Path.is_empty (String "/" w)) with false.
    destruct (false || _); cbn [String.append]; apply normpath_absolute.
Qed.

Lemma relpath_some wd path start :
  path ≠ "" -> is_Some (Path.relpath wd path start).
Proof.
  intros Hne. unfold Path.relpath.
  destruct path; [contradiction|]. cbn [Path.is_empty Shlex.nonempty negb].
  destruct (_ ++ _); eauto.
Qed.

(** With an absolute working directory every path has a relative
    containing directory. *)
Lemma file_dir_total host path :
  Py.startswith (getcwd host) "/" = true ->
  is_Some (file_dir_of host (Path.abspath (_initwd host) path)).
Proof.
  intros Hwd. unfold file_dir_of.
  destruct (abspath_absolute (_initwd host) path Hwd) as [r ->].
  apply relpath_some, dirname_absolute.
Qed.
End PathFacts.

(** *** Insertion into a directory table *)

Section DirAdd.
Implicit Types (d : dir_info) (k fd a : string) (fs : gset string).

Lemma dir_add_elem fd a d k fs :
  (k, fs) ∈ dir_add fd a d ->
  (k, fs) ∈ d \/
  (k = fd /\ exists fs0, ((fd, fs0) ∈ d \/ fs0 = ∅) /\ fs = fs0 ∪ {[a]}).
Proof.
  induction d as [|[k' fs'] d IH]; cbn [dir_add].
  - intros H. apply list_elem_of_singleton in H as [= -> ->].
    right. split; [reflexivity|]. exists ∅. split; [now right|].
    now rewrite (left_id_L ∅ (∪)).
  - destruct (String.eqb_spec k' fd) as [->|Hne]; intros H.
    + apply elem_of_cons in H as [[= -> ->]|H].
      * right. split; [reflexivity|]. exists fs'. split; [left; left|reflexivity].
      * left. now right.
    + apply elem_of_cons in H as [[= -> ->]|H].
      * left. left.
      * destruct (IH H) as [H'|(-> & fs0 & [H'| ->] & ->)].
        -- left. now right.
        -- right. split; [reflexivity|]. exists fs0. split; [left; now right|reflexivity].
        -- right. split; [reflexivity|]. exists ∅. split; [now right|reflexivity].
Qed.

Lemma dir_add_mono fd a d k fs :
  (k, fs) ∈ d -> exists fs', (k, fs') ∈ dir_add fd a d /\ fs ⊆ fs'.
Proof.
  induction d as [|[k' fs'] d IH]; cbn [dir_add]; intros H.
  - now apply elem_of_nil in H.
  - apply elem_of_cons in H as [[= -> ->]|H].
    + destruct (String.eqb_spec k' fd) as [->|Hne].
      * exists (fs' ∪ {[a]}). split; [left|set_solver].
      * exists fs'. split; [left|reflexivity].
    + destruct (String.eqb k' fd).
      * exists fs. split; [now right|reflexivity].
      * destruct (IH H) as (fs1 & H1 & Hsub).
        exists fs1. split; [now right|exact Hsub].
Qed.

Lemma dir_add_has fd a d : exists fs, (fd, fs) ∈ dir_add fd a d /\ a ∈ fs.
Proof.
  induction d as [|[k' fs'] d IH]; cbn [dir_add].
  - exists {[a]}. split; [left|now apply elem_of_singleton].
  - destruct (String.eqb_spec k' fd) as [->|Hne].
    + exists (fs' ∪ {[a]}).
      split; [left|apply elem_of_union; right; now apply elem_of_singleton].
    + destruct IH as (fs & H & Ha). exists fs. split; [now right|exact Ha].
Qed.

Lemma dir_add_keys fd a d k :
  k ∈ (dir_add fd a d).*1 -> k = fd \/ k ∈ d.*1.
Proof.
  intros H. apply list_elem_of_fmap in H as ([k0 fs] & -> & H). cbn.
  apply dir_add_elem in H as [H|[-> _]]; [right|now left].
  apply list_elem_of_fmap. now exists (k0, fs).
Qed.

Lemma dir_add_NoDup fd a d : NoDup d.*1 -> NoDup (dir_add fd a d).*1.
Proof.
  induction d as [|[k' fs'] d IH]; cbn [dir_add]; intros Hnd.
  - cbn. apply NoDup_singleton.
  - cbn in Hnd. apply NoDup_cons in Hnd as [Hnotin Hnd].
    destruct (String.eqb_spec k' fd) as [->|Hne]; cbn.
    + now apply NoDup_cons.
    + apply NoDup_cons. split; [|auto].
      intros H. apply dir_add_keys in H as [->|H]; [congruence|contradiction].
Qed.
End DirAdd.

(** *** The grouping loop *)

Section Grouping.
Context (host : Host).
Hypothesis absolute : Py.startswith (getcwd host) "/" = true.

Lemma grouped_empty : grouped host [] ∅.
Proof.
  split.
  - intros n d k fs f H. now rewrite lookup_empty in H.
  - intros p H. now apply elem_of_nil in H.
  - intros n d H. now rewrite lookup_empty in H.
  - intros n d k fs H. now rewrite lookup_empty in H.
Qed.

Lemma files_step_grouped done fbd path :
  grouped host done fbd ->
  exists fbd', files_step host fbd path = Ret fbd' /\ grouped host (done ++ [path]) fbd'.
Proof.
  intros [HA HB HC HD]. unfold files_step.
  destruct (isdir host path) eqn:Edir.
  { exists fbd. split; [reflexivity|]. split; auto.
    - intros n d k fs f H1 H2 H3.
      destruct (HA n d k fs f H1 H2 H3) as (p & Hp & Hrest).
      exists p. split; [apply elem_of_app; now left|exact Hrest].
    - intros p Hp Hnd. apply elem_of_app in Hp as [Hp|Hp]; [auto|].
      apply list_elem_of_singleton in Hp as ->. congruence. }
  destruct (file_dir_total host path absolute) as [fd Hfd]. rewrite Hfd.
  set (a := Path.abspath (_initwd host) path) in *. set (depth := Py.count "/" fd).
  set (d := match fbd !! depth with Some d => d | None => [] end).
  assert (forall k fs, (k, fs) ∈ d -> fbd !! depth = Some d) as Hd.
  { subst d. destruct (fbd !! depth); [reflexivity|].
    intros k fs H. now apply elem_of_nil in H. }
  assert (NoDup d.*1) as Hdnd.
  { subst d. destruct (fbd !! depth) eqn:E; [eauto|apply NoDup_nil_2]. }
  eexists. split; [reflexivity|]. split.
  - intros n d0 k fs f H1 H2 H3.
    destruct (decide (n = depth)) as [->|Hne].
    + rewrite lookup_insert_eq in H1. injection H1 as <-.
      apply dir_add_elem in H2 as [H2|(-> & fs0 & Hfs0 & ->)].
      * destruct (HA depth d k fs f (Hd _ _ H2) H2 H3) as (p & Hp & Hrest).
        exists p. split; [apply elem_of_app; now left|exact Hrest].
      * apply elem_of_union in H3 as [H3|H3].
        -- destruct Hfs0 as [H0| ->]; [|set_solver].
           destruct (HA depth d fd fs0 f (Hd _ _ H0) H0 H3) as (p & Hp & Hrest).
           exists p. split; [apply elem_of_app; now left|exact Hrest].
        -- apply elem_of_singleton in H3 as ->.
           exists path. split; [apply elem_of_app; right; left|]. auto.
    + rewrite lookup_insert_ne in H1 by congruence.
      destruct (HA n d0 k fs f H1 H2 H3) as (p & Hp & Hrest).
      exists p. split; [apply elem_of_app; now left|exact Hrest].
  - intros p Hp Hnd. apply elem_of_app in Hp as [Hp|Hp].
    + destruct (HB p Hp Hnd) as (k & d0 & fs & Hk & Hl & Hin & Hf).
      destruct (decide (Py.count "/" k = depth)) as [Heq|Hne].
      * assert (d0 = d) as ->.
        { subst d. rewrite Heq in Hl. now rewrite Hl. }
        destruct (dir_add_mono fd a d k fs Hin) as (fs' & Hin' & Hsub).
        exists k, (dir_add fd a d), fs'. rewrite Heq, lookup_insert_eq.
        repeat split; auto.
      * exists k, d0, fs. rewrite lookup_insert_ne by congruence. auto.
    + apply list_elem_of_singleton in Hp as ->.
      destruct (dir_add_has fd a d) as (fs & Hin & Ha).
      exists fd, (dir_add fd a d), fs. fold a. fold depth.
      rewrite lookup_insert_eq. auto.
  - intros n d0 H1. destruct (decide (n = depth)) as [->|Hne].
    + rewrite lookup_insert_eq in H1. injection H1 as <-.
      now apply dir_add_NoDup.
    + rewrite lookup_insert_ne in H1 by congruence. eauto.
  - intros n d0 k fs H1 H2. destruct (decide (n = depth)) as [->|Hne].
    + rewrite lookup_insert_eq in H1. injection H1 as <-.
      apply dir_add_elem in H2 as [H2|[-> _]]; [|reflexivity].
      eapply HD; [apply (Hd _ _ H2)|exact H2].
    + rewrite lookup_insert_ne in H1 by congruence. eauto.
Qed.

Lemma files_loop_grouped paths done fbd :
  grouped host done fbd ->
  exists fbd', files_loop host fbd paths = Ret fbd' /\ grouped host (done ++ paths) fbd'.
Proof.
  revert done fbd. induction paths as [|path paths IH]; intros done fbd Hg.
  - exists fbd. rewrite app_nil_r. auto.
  - cbn [files_loop].
    destruct (files_step_grouped done fbd path Hg) as (fbd1 & -> & Hg1).
    destruct (IH _ _ Hg1) as (fbd' & Hl & Hg').
    exists fbd'. split; [exact Hl|]. now rewrite <- app_assoc in Hg'.
Qed.

Lemma get_files_by_depth_grouped paths :
  exists fbd, _get_files_by_depth host paths = Ret fbd /\ grouped host paths fbd.
Proof. apply (files_loop_grouped paths [] ∅ grouped_empty). Qed.
End Grouping.

(** *** Visiting order *)

Section Order.
Context (host : Host).

Lemma bucket_order_cons g groups :
  bucket_order (g :: groups) = g.2 ++ bucket_order groups.
Proof. reflexivity. Qed.

Lemma elem_of_bucket_order b groups :
  b ∈ bucket_order groups <-> exists n d, (n, d) ∈ groups /\ b ∈ d.
Proof.
  induction groups as [|[n d] groups IH].
  - split; [intros H; now apply elem_of_nil in H|].
    intros (n & d & H & _). now apply elem_of_nil in H.
  - rewrite bucket_order_cons, elem_of_app, IH. cbn [snd]. split.
    + intros [H|(n' & d' & H1 & H2)].
      * exists n, d. split; [left|exact H].
      * exists n', d'. split; [now right|exact H2].
    + intros (n' & d' & H1 & H2). apply elem_of_cons in H1 as [[= -> ->]|H1].
      * now left.
      * right. eauto.
Qed.

Lemma elem_of_sorted_reverse (fbd : gmap nat dir_info) n d :
  (n, d) ∈ sorted_reverse fbd <-> fbd !! n = Some d.
Proof.
  unfold sorted_reverse. rewrite merge_sort_Permutation.
  apply elem_of_map_to_list.
Qed.

Lemma well_filed_tail g groups : well_filed (g :: groups) -> well_filed groups.
Proof. intros H n d k fs Hin. apply H. now right. Qed.

Lemma constant_sorted n (l : list nat) :
  Forall (eq n) l -> StronglySorted ge l.
Proof.
  induction 1 as [|x l <- Hall IH]; constructor; [exact IH|].
  eapply Forall_impl; [exact Hall|]. intros y <-. unfold ge. lia.
Qed.

Lemma bucket_order_depths groups :
  well_filed groups -> StronglySorted key_ge groups ->
  StronglySorted ge (depth_of <$> bucket_order groups).
Proof.
  intros Hwf Hs. induction Hs as [|[n d] groups Hs IH Hall].
  - constructor.
  - rewrite bucket_order_cons, fmap_app. cbn [snd].
    apply StronglySorted_app. split; [|split].
    + intros x1 x2 H1 H2.
      apply list_elem_of_fmap in H1 as ([k1 fs1] & -> & H1).
      apply list_elem_of_fmap in H2 as ([k2 fs2] & -> & H2).
      apply elem_of_bucket_order in H2 as (n2 & d2 & Hg & H2).
      unfold depth_of. cbn [fst].
      rewrite (Hwf n d k1 fs1) by (auto; left).
      rewrite (Hwf n2 d2 k2 fs2) by (auto; now right).
      rewrite Forall_forall in Hall. specialize (Hall _ Hg).
      unfold key_ge in Hall. cbn in Hall. lia.
    + apply (constant_sorted n), Forall_fmap, Forall_forall.
      intros [k fs] Hin. symmetry. apply (Hwf n d k fs); [left|exact Hin].
    + apply IH. eapply well_filed_tail; eauto.
Qed.

(** no directory is visited twice *)
Lemma bucket_order_NoDup groups :
  well_filed groups -> NoDup groups.*1 ->
  (forall n d, (n, d) ∈ groups -> NoDup d.*1) ->
  NoDup (bucket_order groups).*1.
Proof.
  intros Hwf Hnd Hin. induction groups as [|[n d] groups IH]; [constructor|].
  rewrite bucket_order_cons, fmap_app. cbn [snd].
  cbn in Hnd. apply NoDup_cons in Hnd as [Hn Hnd].
  apply NoDup_app. split; [|split].
  - apply (Hin n d). left.
  - intros k H1 H2.
    apply list_elem_of_fmap in H1 as ([k1 fs1] & -> & H1).
    apply list_elem_of_fmap in H2 as ([k2 fs2] & Hk & H2). cbn in Hk. subst k2.
    apply elem_of_bucket_order in H2 as (n2 & d2 & Hg & H2).
    assert (n2 = n) as ->.
    { rewrite <- (Hwf n2 d2 k1 fs2) by (auto; now right).
      apply (Hwf n d k1 fs1); [left|exact H1]. }
    apply Hn. apply list_elem_of_fmap. now exists (n, d2).
  - apply IH; [eapply well_filed_tail; eauto|exact Hnd|].
    intros n' d' H. apply (Hin n' d'). now right.
Qed.
End Order.

Lemma nodup_keys_unique {K V} (l : list (K * V)) k x y :
  NoDup l.*1 -> (k, x) ∈ l -> (k, y) ∈ l -> x = y.
Proof.
  induction l as [|[k' v] l IH]; intros Hnd Hx Hy.
  - now apply elem_of_nil in Hx.
  - cbn in Hnd. apply NoDup_cons in Hnd as [Hnotin Hnd].
    assert (forall z, (k', z) ∈ l -> False) as Hno.
    { intros z Hz. apply Hnotin. apply list_elem_of_fmap. now exists (k', z). }
    apply elem_of_cons in Hx as [Hx|Hx];
      apply elem_of_cons in Hy as [Hy|Hy]; simplify_eq; eauto.
    + exfalso. eauto.
    + exfalso. eauto.
Qed.

(** C5 (as amended): with an absolute start directory the grouping
    succeeds; with the buckets taken in the order the orchestrator visits
    them: every file of a bucket is the absolute form of an input path that
    is not a directory and whose containing directory is the bucket's key;
    every input path that is not a directory is in a bucket; a file is in
    one bucket only; the depths along the visit never increase (a deeper
    bucket always comes before a shallower one); and the run is the loop
    over exactly this list. *)
Theorem path_grouper_buckets (host : Host) (paths : list string) :
  Py.startswith (getcwd host) "/" = true ->
  exists files_by_depth,
    _get_files_by_depth host paths = Ret files_by_depth /\
    let order := bucket_order (sorted_reverse files_by_depth) in
    (forall d fs f, (d, fs) ∈ order -> f ∈ fs ->
       exists p, p ∈ paths /\ isdir host p = false /\
                 f = Path.abspath (_initwd host) p /\
                 file_dir_of host f = Some d) /\
    (forall p, p ∈ paths -> isdir host p = false ->
       exists d fs, (d, fs) ∈ order /\ Path.abspath (_initwd host) p ∈ fs) /\
    (forall b1 b2 f, b1 ∈ order -> b2 ∈ order -> f ∈ b1.2 -> f ∈ b2.2 -> b1 = b2) /\
    StronglySorted ge (depth_of <$> order) /\
    (forall args argv q,
       truthy (_skip host) = false ->
       _get_paths_from_args argv = (true, paths) ->
       run host args argv q = for_each order (bucket_body host args) 0 q).
Proof.
  intros Habs.
  destruct (get_files_by_depth_grouped host Habs paths) as (fbd & Hget & [HA HB HC HD]).
  exists fbd. split; [exact Hget|]. cbn zeta.
  assert (forall d fs f, (d, fs) ∈ bucket_order (sorted_reverse fbd) -> f ∈ fs ->
            exists p, p ∈ paths /\ isdir host p = false /\
                      f = Path.abspath (_initwd host) p /\
                      file_dir_of host f = Some d) as Hsound.
  { intros d fs f Hin Hf.
    apply elem_of_bucket_order in Hin as (n & di & Hg & Hin).
    apply elem_of_sorted_reverse in Hg. eauto. }
  assert (well_filed (sorted_reverse fbd)) as Hwf.
  { intros n d k fs Hg Hin. apply elem_of_sorted_reverse in Hg. eauto. }
  assert (NoDup (bucket_order (sorted_reverse fbd)).*1) as Hnd.
  { apply bucket_order_NoDup; [exact Hwf| |].
    - unfold sorted_reverse. rewrite merge_sort_Permutation.
      apply NoDup_fst_map_to_list.
    - intros n d Hg. apply elem_of_sorted_reverse in Hg. eauto. }
  repeat split.
  - exact Hsound.
  - intros p Hp Hdir.
    destruct (HB p Hp Hdir) as (k & d & fs & _ & Hl & Hin & Hf).
    exists k, fs. split; [|exact Hf].
    apply elem_of_bucket_order. exists (Py.count "/" k), d.
    split; [now apply elem_of_sorted_reverse|exact Hin].
  - intros [d1 fs1] [d2 fs2] f H1 H2 Hf1 Hf2. cbn in Hf1, Hf2.
    destruct (Hsound _ _ _ H1 Hf1) as (_ & _ & _ & _ & Hd1).
    destruct (Hsound _ _ _ H2 Hf2) as (_ & _ & _ & _ & Hd2).
    assert (d1 = d2) as -> by congruence.
    f_equal. eapply nodup_keys_unique; eauto.
  - apply bucket_order_depths; [exact Hwf|].
    apply StronglySorted_merge_sort; apply _.
  - intros args argv q Hs Hp. unfold run. rewrite Hs, Hp. cbn [negb].
    unfold bind, lift. rewrite Hget. apply run_buckets_flat.
Qed.

Lemma path_grouper_buckets_witness :
  exists files_by_depth,
    _get_files_by_depth host_w ["a/b/c/z.py"; "a"; "a/x.py"; "a/b/y.py"]
      = Ret files_by_depth /\
    StronglySorted ge
      (depth_of <$> bucket_order (sorted_reverse files_by_depth)).
Proof.
  destruct (path_grouper_buckets host_w ["a/b/c/z.py"; "a"; "a/x.py"; "a/b/y.py"])
    as (fbd & Hget & _ & _ & _ & Hsorted & _).
  - reflexivity.
  - exists fbd. split; [exact Hget|exact Hsorted].
Defined.

(** The example of the specification: files under [a], [a/b] and [a/b/c],
    and the directory [a] itself, are visited in the order [a/b/c],
    [a/b], [a]. *)
Example visit_deepest_first :
  visit_order host_w ["a/x.py"; "a"; "a/b/c/z.py"; "a/b/y.py"]
    = Ret [("a/b/c", 2%nat); ("a/b", 1%nat); ("a", 0%nat)].
Proof. vm_compute. reflexivity. Qed.

(** C5 (as stated) fails: two sibling directories are two buckets of
    the same depth, visited one after the other, so the depths along the
    visit do not strictly decrease.  (The start directory and its child
    have the same depth too, and are visited in input order.) *)
Lemma path_grouper_counterexample :
  visit_order host_w ["a/x.py"; "b/y.py"] = Ret [("a", 0%nat); ("b", 0%nat)] /\
  visit_order host_w ["x.py"; "a/y.py"] = Ret [(".", 0%nat); ("a", 0%nat)] /\
  ~ StronglySorted gt [0%nat; 0%nat].
Proof.
  split; [vm_compute; reflexivity|]. split; [vm_compute; reflexivity|].
  intros H. apply StronglySorted_inv in H as [_ H].
  apply Forall_inv in H. unfold gt in H. lia.
Qed.

(** ** Further properties of the sentinel parser *)

Lemma str_app_cons c (s t : string) : String c s +:+ t = String c (s +:+ t).
Proof. reflexivity. Qed.

Lemma str_app_nil_r (s : string) : s +:+ "" = s.
Proof. induction s as [|c s IH]; [reflexivity|]. now rewrite str_app_cons, IH. Qed.

Lemma str_app_assoc (a b c : string) : (a +:+ b) +:+ c = a +:+ b +:+ c.
Proof. induction a as [|x a IH]; [reflexivity|]. now rewrite !str_app_cons, IH. Qed.

Lemma rev_app_spec (s t : string) : String.rev_app s t = String.rev s +:+ t.
Proof.
  unfold String.rev. revert t. induction s as [|c s IH]; intros t; [reflexivity|].
  cbn [String.rev_app].
  rewrite (IH (String c t)), (IH (String c "")). now rewrite str_app_assoc.
Qed.

Lemma str_rev_cons c (s : string) : String.rev (String c s) = String.rev s +:+ String c "".
Proof. unfold String.rev at 1. cbn [String.rev_app]. apply rev_app_spec. Qed.

Lemma lit_app (l s : string) : Re.lit l (l +:+ s) = Some s.
Proof.
  induction l as [|a l IH]; [reflexivity|].
  rewrite str_app_cons. cbn [Re.lit]. now rewrite Ascii.eqb_refl.
Qed.

(** A greedy repetition over a run of class characters gives back
    exactly one character when the continuation needs the last one. *)
Lemma rep_gives_back_one {R} cls (k : string -> string -> option R) s acc c r :
  all_chars cls s = true -> cls c = true ->
  k (String.rev acc +:+ s +:+ String c "") "" = None ->
  k (String.rev acc +:+ s) (String c "") = Some r ->
  Re.rep cls k acc (s +:+ String c "") = Some r.
Proof.
  revert acc. induction s as [|x s IH]; intros acc Hs Hc Hnone Hsome.
  - change ("" +:+ String c "") with (String c "") in *.
    cbn [Re.rep]. rewrite Hc. cbn [Re.rep]. rewrite str_rev_cons, Hnone.
    now rewrite str_app_nil_r in Hsome.
  - cbn in Hs. apply andb_prop in Hs as [Hx Hs].
    rewrite str_app_cons. cbn [Re.rep]. rewrite Hx.
    rewrite (IH (String x acc)); auto.
    + rewrite str_rev_cons, str_app_assoc. exact Hnone.
    + rewrite str_rev_cons, str_app_assoc. exact Hsome.
Qed.

Lemma exec_match_here (v : string) :
  v ≠ "" -> all_chars Re.dot v = true ->
  Re.match_here _sentinel_exec_pattern ("__RUFFWRAP_EXEC__" +:+ v +:+ ",") []
    = Some [("EXEC", v)].
Proof.
  intros Hne Hdot. unfold _sentinel_exec_pattern. cbn [Re.match_here Re.match_atom].
  rewrite lit_app. destruct v as [|x v]; [contradiction|].
  cbn in Hdot. apply andb_prop in Hdot as [Hx Hv].
  rewrite str_app_cons. rewrite Hx.
  apply rep_gives_back_one; auto.
Qed.

Lemma search_here p (s : string) g :
  Re.match_here p s [] = Some g -> Re.search p s = Some g.
Proof. intros H. destruct s; cbn [Re.search]; now rewrite H. Qed.

Lemma search_skip_indent a l p' (indent s : string) :
  all_chars (fun c => negb (Ascii.eqb a c)) indent = true ->
  Re.search (Re.Plain (Re.Lit (String a l)) :: p') (indent +:+ s)
    = Re.search (Re.Plain (Re.Lit (String a l)) :: p') s.
Proof.
  induction indent as [|c indent IH]; intros H; [reflexivity|].
  cbn in H. apply andb_prop in H as [Hc H].
  rewrite str_app_cons. cbn [Re.search]. cbn [Re.match_here Re.match_atom Re.lit].
  apply negb_true_iff in Hc. rewrite Hc. now apply IH.
Qed.

Lemma exec_line_dispatch (indent v : string) (self : Self) :
  all_chars (fun c => negb (Ascii.eqb "_" c)) indent = true ->
  v ≠ "" -> all_chars Re.dot v = true ->
  dispatch ModeBase_sentinels_map (indent +:+ "__RUFFWRAP_EXEC__" +:+ v +:+ ",") self
    = Ret {| _exec := v; _modes := _modes self |} /\
  dispatch BatchMode_sentinels_map (indent +:+ "__RUFFWRAP_EXEC__" +:+ v +:+ ",") self
    = Ret {| _exec := v; _modes := _modes self |}.
Proof.
  intros Hind Hne Hdot.
  assert (Re.search _sentinel_exec_pattern
            (indent +:+ "__RUFFWRAP_EXEC__" +:+ v +:+ ",") = Some [("EXEC", v)]) as Hs.
  { unfold _sentinel_exec_pattern.
    rewrite search_skip_indent by exact Hind.
    apply search_here. now apply exec_match_here. }
  unfold BatchMode_sentinels_map, ModeBase_sentinels_map. cbn [app dispatch].
  rewrite Hs. split; reflexivity.
Qed.

(** X1: an executable-override line (any indentation free of
    underscores, the marker, a non-empty value without newline, a final
    comma) sets the override to exactly the value, commas and further
    markers inside the value included, in both modes. *)
Theorem exec_sentinel_round_trip (indent v : string) (self : Self) :
  all_chars (fun c => negb (Ascii.eqb "_" c)) indent = true ->
  v ≠ "" -> all_chars Re.dot v = true ->
  let line := indent +:+ "__RUFFWRAP_EXEC__" +:+ v +:+ "," in
  dispatch ModeBase_sentinels_map line self
    = Ret {| _exec := v; _modes := _modes self |} /\
  dispatch BatchMode_sentinels_map line self
    = Ret {| _exec := v; _modes := _modes self |}.
Proof. intros Hind Hne Hdot line. now apply exec_line_dispatch. Qed.

Lemma exec_sentinel_round_trip_witness :
  dispatch BatchMode_sentinels_map
    ("    " +:+ "__RUFFWRAP_EXEC__" +:+ "uvx --from ruff==0.9,<1 ruff" +:+ ",") _reset
    = Ret {| _exec := "uvx --from ruff==0.9,<1 ruff"; _modes := ∅ |}.
Proof.
  apply (exec_sentinel_round_trip "    " "uvx --from ruff==0.9,<1 ruff" _reset);
    [reflexivity|discriminate|reflexivity].
Defined.

(** ** Further properties of the resolver *)

Lemma plain_char_inv c :
  plain_char c = true ->
  Shlex.whitespace c = false /\ Shlex.quote c = false /\ Shlex.escape c = false.
Proof.
  unfold plain_char. intros H. apply negb_true_iff in H.
  apply orb_false_iff in H as [H ?]. apply orb_false_iff in H as [? ?]. auto.
Qed.

Lemma go_word_plain w tok quoted rest :
  all_chars plain_char w = true ->
  Shlex.go Shlex.Word tok quoted (w +:+ rest)
    = Shlex.go Shlex.Word (tok +:+ w) quoted rest.
Proof.
  revert tok. induction w as [|c w IH]; intros tok H.
  - now rewrite str_app_nil_r.
  - cbn in H. apply andb_prop in H as [Hc H].
    destruct (plain_char_inv c Hc) as (Hw & Hq & He).
    rewrite str_app_cons. cbn [Shlex.go]. rewrite Hw, Hq, He.
    rewrite IH by assumption. unfold Shlex.snoc. now rewrite str_app_assoc.
Qed.

Lemma go_ws_plain_word w rest :
  plain_word w = true ->
  Shlex.go Shlex.Ws "" false (w +:+ rest) = Shlex.go Shlex.Word w false rest.
Proof.
  unfold plain_word. intros H. apply andb_prop in H as [Hne H].
  destruct w as [|c w]; [discriminate|].
  cbn in H. apply andb_prop in H as [Hc H].
  destruct (plain_char_inv c Hc) as (Hw & Hq & He).
  rewrite str_app_cons. cbn [Shlex.go]. rewrite Hw, Hq, He.
  now rewrite go_word_plain.
Qed.

(** plain words joined by single blanks split into the same words *)
Lemma split_join_plain w ws :
  plain_word w = true -> Forall (fun x => plain_word x = true) ws ->
  Shlex.split (Py.join " " (w :: ws)) = Some (w :: ws).
Proof.
  unfold Shlex.split. intros Hw Hws. revert w Hw.
  induction Hws as [|w2 ws Hw2 _ IH]; intros w Hw.
  - cbn [Py.join]. rewrite <- (str_app_nil_r w) at 1.
    rewrite go_ws_plain_word by assumption. cbn [Shlex.go].
    unfold plain_word in Hw. apply andb_prop in Hw as [-> _]. reflexivity.
  - change (Py.join " " (w :: w2 :: ws))
      with (w +:+ " " +:+ Py.join " " (w2 :: ws)).
    rewrite go_ws_plain_word by assumption.
    change (" " +:+ Py.join " " (w2 :: ws))
      with (String " " (Py.join " " (w2 :: ws))).
    cbn [Shlex.go]. change (Shlex.whitespace " ") with true. cbn iota.
    pose proof Hw as Hw'. unfold plain_word in Hw'.
    apply andb_prop in Hw' as [-> _]. cbn [orb].
    now rewrite IH.
Qed.

Lemma join_plain_nonempty w ws :
  plain_word w = true -> Shlex.nonempty (Py.join " " (w :: ws)) = true.
Proof.
  unfold plain_word. intros H. apply andb_prop in H as [H _].
  destruct w; [discriminate|]. destruct ws; reflexivity.
Qed.

(** X2: with the skip flag unset, an override recovered from a
    sentinel (plain words separated by single blanks, e.g. a launcher with
    its options) is split into its words and put before the caller's
    arguments, whatever the search path and the environment hold. *)
Theorem ruff_uses_sentinel_override
    (host : Host) (self : Self) (w : string) (ws cmdargs : list string) :
  truthy (_skip host) = false ->
  plain_word w = true -> Forall (fun x => plain_word x = true) ws ->
  _exec self = Py.join " " (w :: ws) ->
  ruff host self cmdargs = Ret ((w :: ws) ++ cmdargs).
Proof.
  intros Hs Hw Hws He. unfold ruff. rewrite Hs, He.
  rewrite join_plain_nonempty by assumption.
  now rewrite split_join_plain.
Qed.

Lemma ruff_uses_sentinel_override_witness :
  ruff host_nopath {| _exec := "uvx ruff@0.9"; _modes := ∅ |} ["format"; "x.py"]
    = Ret (["uvx"; "ruff@0.9"] ++ ["format"; "x.py"]).
Proof.
  apply (ruff_uses_sentinel_override host_nopath _ "uvx" ["ruff@0.9"]);
    [reflexivity|reflexivity| |reflexivity].
  repeat constructor.
Defined.

(** X3: with the skip flag unset and no override, when the path the
    search finds is one plain word (no blank, quote or backslash): the
    tool found on the search path is the one-word prefix; when it is not
    found and the launcher is, the prefix is the launcher followed by the
    tool name. *)
Theorem ruff_search_path_fallback
    (host : Host) (self : Self) (found : string) (cmdargs : list string) :
  truthy (_skip host) = false -> _exec self = "" -> plain_word found = true ->
  (which host "ruff" = Some found ->
   ruff host self cmdargs = Ret (found :: cmdargs)) /\
  (which host "ruff" = None -> which host "uvx" = Some found ->
   ruff host self cmdargs = Ret (found :: "ruff" :: cmdargs)).
Proof.
  intros Hs He Hw. unfold ruff. rewrite Hs, He. cbn [Shlex.nonempty]. split.
  - intros ->. change found with (Py.join " " [found]).
    now rewrite split_join_plain.
  - intros -> ->. pose proof Hw as Hw'. unfold plain_word in Hw'.
    apply andb_prop in Hw' as [-> _].
    change (found +:+ " ruff") with (Py.join " " [found; "ruff"]).
    rewrite split_join_plain; auto.
Qed.

Lemma ruff_search_path_fallback_witness :
  ruff host_w _reset ["check"] = Ret ["/usr/bin/ruff"; "check"].
Proof.
  apply (ruff_search_path_fallback host_w _reset "/usr/bin/ruff" ["check"]);
    reflexivity.
Defined.

(** ** Further properties of the mode registry *)

(** A path with a blank in it is split into two tokens. *)
Example ruff_path_with_blank_is_split :
  ruff {| environ := fun _ => None; getcwd := "/w"; isdir := fun _ => false;
          chdir_ok := fun _ => true;
          which := fun _ => Some "/opt/my tools/ruff";
          spawn := fun _ _ => LaunchError |} _reset ["check"]
    = Ret ["/opt/my"; "tools/ruff"; "check"].
Proof. reflexivity. Qed.

(** X4: recording indexed commands: the command can be read back;
    a second declaration of the same mode and index replaces the first; and
    declarations for different modes or indices can be made in either
    order. *)
Theorem declare_cmd_last_wins_and_commutes
    (name name' : string) (i j : Z) (a b : list string) (self : Self) :
  (_modes (declare_cmd name i a self) !! name) ≫= (fun d => d !! i) = Some a /\
  declare_cmd name i a (declare_cmd name i b self) = declare_cmd name i a self /\
  ((name, i) ≠ (name', j) ->
   declare_cmd name i a (declare_cmd name' j b self)
     = declare_cmd name' j b (declare_cmd name i a self)).
Proof.
  repeat split.
  - unfold declare_cmd. cbn [_modes]. rewrite lookup_insert_eq. cbn.
    apply lookup_insert_eq.
  - unfold declare_cmd. cbn [_modes _exec]. rewrite lookup_insert_eq.
    now rewrite !insert_insert_eq.
  - intros Hne. unfold declare_cmd. cbn [_modes _exec]. f_equal.
    destruct (decide (name = name')) as [<-|Hn].
    + rewrite !lookup_insert_eq, !insert_insert_eq. f_equal.
      apply insert_insert_ne. congruence.
    + rewrite !lookup_insert_ne by congruence.
      now apply insert_insert_ne.
Qed.

Lemma declare_cmd_last_wins_and_commutes_witness :
  declare_cmd "m" 0 ["format"] (declare_cmd "m" 5 ["check"] _reset)
    = declare_cmd "m" 5 ["check"] (declare_cmd "m" 0 ["format"] _reset).
Proof.
  apply (proj2 (proj2 (declare_cmd_last_wins_and_commutes
                         "m" "m" 0 5 ["format"] ["check"] _reset))).
  discriminate.
Defined.

(** X5: activating a standard definition replaces whatever had been
    declared for that mode before (earlier indexed commands are lost), and
    touches neither the other modes nor the executable override. *)
Theorem activate_default_replaces
    (name name' : string) (i : Z) (a : list string) (self self' : Self) :
  activate_default name (declare_cmd name i a self) = activate_default name self /\
  (activate_default name self = Ret self' -> name' ≠ name ->
   _modes self' !! name' = _modes self !! name' /\ _exec self' = _exec self).
Proof.
  split.
  - unfold activate_default, declare_cmd. cbn [_modes _exec].
    destruct (_mode_default_definition_funcs !! name) as [f|].
    + destruct (f tt); [|reflexivity]. now rewrite insert_insert_eq.
    + now rewrite insert_insert_eq.
  - unfold activate_default. intros H Hne.
    destruct (_mode_default_definition_funcs !! name) as [f|].
    + destruct (f tt); inversion H; subst; cbn [_modes _exec].
      now rewrite lookup_insert_ne.
    + inversion H; subst; cbn [_modes _exec]. now rewrite lookup_insert_ne.
Qed.

Lemma activate_default_replaces_witness :
  _modes {| _exec := ""; _modes := <["nightly" := ∅]> ∅ |} !! "hook"
    = _modes _reset !! "hook" /\
  _exec {| _exec := ""; _modes := <["nightly" := ∅]> ∅ |} = _exec _reset.
Proof.
  apply (proj2 (activate_default_replaces "nightly" "hook" 0 [] _reset
                  {| _exec := ""; _modes := <["nightly" := ∅]> ∅ |}));
    [reflexivity|discriminate].
Defined.

Lemma enumerate_split_below l idx d i :
  enumerate_split idx l = Some d -> i < idx -> d !! i = None.
Proof.
  revert idx d. induction l as [|cmd_str l IH]; intros idx d H Hi; cbn in H.
  - injection H as <-. apply lookup_empty.
  - destruct (Shlex.split cmd_str) as [cmd|]; [|discriminate].
    destruct (enumerate_split (idx + 1) l) as [d'|] eqn:E; [|discriminate].
    injection H as <-. rewrite lookup_insert_ne by lia.
    apply (IH (idx + 1)); [exact E|lia].
Qed.

Lemma enumerate_split_numbered l idx d :
  enumerate_split idx l = Some d ->
  exists cmds,
    Forall2 (fun s c => Shlex.split s = Some c) l cmds /\
    map_to_list d ≡ₚ numbered idx cmds.
Proof.
  revert idx d. induction l as [|cmd_str l IH]; intros idx d H; cbn in H.
  - injection H as <-. exists []. split; [constructor|].
    now rewrite map_to_list_empty.
  - destruct (Shlex.split cmd_str) as [cmd|] eqn:Ec; [|discriminate].
    destruct (enumerate_split (idx + 1) l) as [d'|] eqn:E; [|discriminate].
    injection H as <-. destruct (IH _ _ E) as (cmds & Hall & Hperm).
    exists (cmd :: cmds). split; [now constructor|].
    rewrite map_to_list_insert by (apply (enumerate_split_below l (idx + 1)); [exact E|lia]).
    cbn [numbered]. now rewrite Hperm.
Qed.

Lemma enumerate_split_some l idx :
  Forall (fun s => is_Some (Shlex.split s)) l -> is_Some (enumerate_split idx l).
Proof.
  intros H. revert idx. induction H as [|cmd_str l [cmd Hc] _ IH]; intros idx; cbn.
  - eauto.
  - rewrite Hc. destruct (IH (idx + 1)) as [d ->]. eauto.
Qed.

Lemma numbered_keys idx cmds x : x ∈ numbered idx cmds -> idx ≤ x.1.
Proof.
  revert idx. induction cmds as [|cmd cmds IH]; intros idx H; cbn in H.
  - now apply elem_of_nil in H.
  - apply elem_of_cons in H as [->|H]; [cbn; lia|].
    apply IH in H. lia.
Qed.

Lemma numbered_sorted idx cmds : Sorted key_le (numbered idx cmds).
Proof.
  revert idx. induction cmds as [|cmd cmds IH]; intros idx; cbn; [constructor|].
  constructor; [apply IH|].
  destruct cmds; cbn; constructor. unfold key_le. cbn. lia.
Qed.

(** a list sorted by key that holds the items of a map is the sorted
    item list of the map *)
Lemma sorted_items_unique (m : cmdseq) l :
  Sorted key_le l -> l ≡ₚ map_to_list m -> sorted_items m = l.
Proof.
  intros Hs Hp. apply (Sorted_unique_strong key_le).
  - intros [k1 v1] [k2 v2] H1 H2 Hle Hge. unfold key_le in *. cbn in *.
    assert (k1 = k2) as -> by lia. f_equal.
    rewrite sorted_items_perm in H1. rewrite Hp in H2.
    eapply nodup_keys_unique; eauto. apply NoDup_fst_map_to_list.
  - apply Sorted_merge_sort; apply _.
  - exact Hs.
  - now rewrite sorted_items_perm, Hp.
Qed.

Lemma default_definition_numbered l self name :
  l ≠ [] -> Forall (fun s => is_Some (Shlex.split s)) l ->
  _mode_default_definition_funcs !! name = Some (fun _ => enumerate_split 0 l) ->
  exists d cmds,
    activate_default name self
      = Ret {| _exec := _exec self; _modes := <[name := d]> (_modes self) |} /\
    Forall2 (fun s cmd => Shlex.split s = Some cmd) l cmds /\
    cmds ≠ [] /\ sorted_items d = numbered 0 cmds.
Proof.
  intros Hne Hall Hf.
  destruct (enumerate_split_some l 0 Hall) as [d Hd].
  destruct (enumerate_split_numbered l 0 d Hd) as (cmds & H2 & Hperm).
  exists d, cmds. repeat split.
  - unfold activate_default. now rewrite Hf, Hd.
  - exact H2.
  - intros ->. inversion H2; subst. contradiction.
  - apply sorted_items_unique; [apply numbered_sorted|now symmetry].
Qed.

(** X6: for each of the four built-in mode names the
    standard-definition handler does not raise, and the sequence it
    installs holds, at index 0, 1, 2, ... without gaps, the word lists of
    the command strings listed in the source, in the order they are listed:
    the i-th item of the sorted sequence is the split of the i-th listed
    string. *)
Theorem builtin_default_definitions_are_numbered (name : string) (self : Self) :
  name ∈ builtin_modes ->
  exists d cmds,
    activate_default name self
      = Ret {| _exec := _exec self; _modes := <[name := d]> (_modes self) |} /\
    Forall2 (fun s cmd => Shlex.split s = Some cmd) (listed_commands name) cmds /\
    cmds ≠ [] /\ sorted_items d = numbered 0 cmds.
Proof.
  unfold builtin_modes. intros H.
  repeat (apply elem_of_cons in H as [->|H]); [| | | |now apply elem_of_nil in H].
  all: apply default_definition_numbered.
  all: try (unfold _mode_default_definition_funcs;
            repeat (rewrite lookup_insert_ne by discriminate);
            rewrite lookup_insert_eq; reflexivity).
  all: try discriminate.
  all: repeat (apply Forall_cons; split; [vm_compute; eauto|]); apply Forall_nil_2.
Qed.

Lemma builtin_default_definitions_are_numbered_witness :
  exists d cmds,
    activate_default "verify" _reset
      = Ret {| _exec := ""; _modes := <["verify" := d]> ∅ |} /\
    Forall2 (fun s cmd => Shlex.split s = Some cmd) (listed_commands "verify") cmds /\
    cmds ≠ [] /\ sorted_items d = numbered 0 cmds.
Proof.
  apply (builtin_default_definitions_are_numbered "verify" _reset).
  unfold builtin_modes. do 2 right. left.
Defined.

(** ** Further properties of the batch orchestrator *)

Lemma index_none (x : string) (l : list string) : index x l = None -> x ∉ l.
Proof.
  induction l as [|y l IH]; cbn [index]; intros H.
  - apply not_elem_of_nil.
  - destruct (String.eqb_spec y x) as [->|Hne]; [discriminate|].
    destruct (index x l); [discriminate|].
    apply not_elem_of_cons. split; [congruence|auto].
Qed.

(** X7: the three outcomes of the argument check: without ["--"]
    every token is a path; with ["--"] first, the paths are the tokens after
    it; otherwise the arguments are refused and the tokens reported are the
    non-empty run before the first ["--"]. *)
Theorem get_paths_from_args_cases (args : list string) :
  match _get_paths_from_args args with
  | (true, paths) => (args = paths /\ "--" ∉ args) \/ args = "--" :: paths
  | (false, bad) =>
      bad ≠ [] /\ ("--" ∉ bad) /\ (exists rest, args = bad ++ "--" :: rest)
  end.
Proof.
  unfold _get_paths_from_args.
  destruct (index "--" args) as [n|] eqn:E.
  - apply index_first in E as [Hn Hbefore].
    destruct n as [|n]; cbn [Nat.ltb Nat.leb].
    + right. destruct args as [|a args]; [discriminate|].
      cbn in Hn. injection Hn as ->. reflexivity.
    + split; [|split].
      * destruct args; [discriminate|]. discriminate.
      * intros Hin. apply list_elem_of_lookup in Hin as [j Hj].
        pose proof (lookup_lt_Some _ _ _ Hj) as Hlt.
        rewrite length_take in Hlt.
        rewrite lookup_take_lt in Hj by lia.
        apply (Hbefore j); [lia|exact Hj].
      * exists (drop (S (S n)) args). symmetry. now apply take_drop_middle.
  - left. split; [reflexivity|now apply index_none].
Qed.

Lemma files_loop_directories host fbd paths :
  Forall (fun p => isdir host p = true) paths ->
  files_loop host fbd paths = Ret fbd.
Proof.
  induction 1 as [|p paths Hp _ IH]; [reflexivity|].
  cbn [files_loop]. unfold files_step. now rewrite Hp.
Qed.

(** X8: the run returns 0 without changing directory and without
    launching anything when the skip flag is set, and also when it is unset
    and every path given is a directory (or no path is given). *)
Theorem run_without_files
    (host : Host) (args : Namespace) (argv paths : list string) (p : Proc) :
  truthy (_skip host) = true \/
  (_get_paths_from_args argv = (true, paths) /\
   Forall (fun x => isdir host x = true) paths) ->
  run host args argv p = (Ret 0, p).
Proof.
  unfold run. intros [-> |[Hp Hd]]; [reflexivity|].
  destruct (truthy (_skip host)); [reflexivity|].
  rewrite Hp. cbn [negb]. unfold bind, lift, _get_files_by_depth.
  rewrite files_loop_directories by assumption.
  unfold sorted_reverse. now rewrite map_to_list_empty.
Qed.

Lemma run_without_files_witness :
  run host_w {| mode := "m"; mode_require := true |} ["--"; "a"] start = (Ret 0, start).
Proof.
  apply (run_without_files host_w _ ["--"; "a"] ["a"]).
  right. split; [reflexivity|]. repeat constructor.
Defined.

Lemma for_each_bucket_lower_bound host args buckets rc p r q :
  0 ≤ rc ->
  for_each buckets (bucket_body host args) rc p = (Ret r, q) -> rc ≤ r.
Proof.
  intros Hrc. rewrite for_each_bucket_codes by assumption. unfold bind, ret.
  destruct (bucket_codes host args buckets p) as [[cs|e] p']; [|discriminate].
  intros [= <- <-]. lia.
Qed.

(** X9: a bucket whose freshly read registry lacks the requested mode
    launches nothing beyond the settings query; without [mode_require] the
    return code is unchanged, with it the code becomes at least 1, and so
    is the code of the whole loop if it runs to its end. *)
Theorem undefined_mode_bucket
    (host : Host) (args : Namespace) (dir_path : string) (abs_paths : gset string)
    (rest : list (string * gset string)) (self : Self) (rc r : Z) (p p1 q : Proc) :
  chdir_ok host (_initwd host +:+ "/" +:+ dir_path) = true ->
  process_sentinels host BatchMode_sentinels_map _reset
    (mkProc (_initwd host +:+ "/" +:+ dir_path) (calls p)) = (Ret self, p1) ->
  _modes self !! mode args = None ->
  bucket_body host args (dir_path, abs_paths) rc p
    = (Ret (if mode_require args then Z.max 1 rc else rc), p1) /\
  (mode_require args = true -> 0 ≤ rc ->
   for_each ((dir_path, abs_paths) :: rest) (bucket_body host args) rc p = (Ret r, q) ->
   1 ≤ r).
Proof.
  intros Hc Hs Hm.
  assert (bucket_body host args (dir_path, abs_paths) rc p
          = (Ret (if mode_require args then Z.max 1 rc else rc), p1)) as Hb.
  { unfold bucket_body, bind, chdir. rewrite Hc, Hs. unfold run_mode.
    rewrite Hm. now destruct (mode_require args). }
  split; [exact Hb|].
  intros Hreq Hrc. cbn [for_each]. unfold bind. rewrite Hb, Hreq.
  intros H. apply for_each_bucket_lower_bound in H; lia.
Qed.

Lemma undefined_mode_bucket_witness :
  exists p1,
    bucket_body host_w {| mode := "nightly"; mode_require := true |}
      ("a/b", {["/w/a/b/x.py"]}) 0 start = (Ret (Z.max 1 0), p1) /\
    length (calls p1) = 1%nat.
Proof.
  eexists. split.
  - eapply proj1.
    eapply (undefined_mode_bucket host_w {| mode := "nightly"; mode_require := true |}
              "a/b" {["/w/a/b/x.py"]} [] _ 0 0 start _ start).
    + reflexivity.
    + vm_compute. reflexivity.
    + vm_compute. reflexivity.
  - reflexivity.
Defined.

Lemma foldr_max_attained (cs : list Z) :
  Forall (fun c => c ≤ foldr Z.max 0 cs) cs /\
  (foldr Z.max 0 cs = 0 \/ foldr Z.max 0 cs ∈ cs).
Proof.
  induction cs as [|c cs [IH1 IH2]]; cbn [foldr].
  - split; [constructor|now left].
  - split.
    + constructor; [lia|]. eapply Forall_impl; [exact IH1|]. cbn. lia.
    + destruct (Z.max_spec c (foldr Z.max 0 cs)) as [[_ ->]|[_ ->]].
      * destruct IH2 as [H|H]; [now left|right; now right].
      * right. left.
Qed.

(** X10: when the loop over the buckets runs to its end from return
    code 0, its result is not negative, is at least every bucket's own
    code, and is 0 or the code of one of the buckets. *)
Theorem run_code_is_largest_bucket_code
    (host : Host) (args : Namespace) (buckets : list (string * gset string))
    (p q : Proc) (r : Z) :
  for_each buckets (bucket_body host args) 0 p = (Ret r, q) ->
  exists cs,
    bucket_codes host args buckets p = (Ret cs, q) /\
    0 ≤ r /\ Forall (fun c => c ≤ r) cs /\ (r = 0 \/ r ∈ cs).
Proof.
  rewrite for_each_bucket_codes by lia. unfold bind, ret.
  destruct (bucket_codes host args buckets p) as [[cs|e] p']; [|discriminate].
  intros [= <- <-]. exists cs.
  pose proof (foldr_max_nonneg cs) as Hn.
  destruct (foldr_max_attained cs) as [H1 H2].
  rewrite Z.max_r by lia. auto.
Qed.

Lemma run_code_is_largest_bucket_code_witness :
  exists cs,
    bucket_codes host_w {| mode := "m"; mode_require := false |}
      [("a/b", {["/w/a/b/x.py"]})] start
      = (Ret cs, (for_each [("a/b", {["/w/a/b/x.py"]})]
                    (bucket_body host_w {| mode := "m"; mode_require := false |})
                    0 start).2) /\
    Forall (fun c => c ≤ 2) cs.
Proof.
  destruct (run_code_is_largest_bucket_code host_w
              {| mode := "m"; mode_require := false |}
              [("a/b", {["/w/a/b/x.py"]})] start
              (for_each [("a/b", {["/w/a/b/x.py"]})]
                 (bucket_body host_w {| mode := "m"; mode_require := false |})
                 0 start).2 2) as (cs & H1 & _ & H2 & _).
  - vm_compute. reflexivity.
  - exists cs. split; assumption.
Defined.

(** X11: the settings query of [process_sentinels], once the command
    is resolved, launches exactly one child process, in the current
    directory, and leaves the directory as it is; when that process fails,
    a "no files found" message on its error stream means the state is
    returned unchanged, any other failure is raised with its return code. *)
Theorem process_sentinels_effects
    (host : Host) (rules : sentinels_map) (self : Self) (argv : list string) (p : Proc) :
  ruff host self show_settings_args = Ret argv ->
  (process_sentinels host rules self p).2
    = mkProc (cwd p) (calls p ++ [mkCall (cwd p) argv]) /\
  (forall rc out err,
     spawn host (calls p) (mkCall (cwd p) argv) = Exited rc out err -> rc ≠ 0 ->
     (process_sentinels host rules self p).1 =
       if Py.contains "No files found under the given path" err
       then Ret self else Raise (CalledProcessError rc)).
Proof.
  intros Hr. unfold process_sentinels, bind, lift, subprocess. rewrite Hr. split.
  - destruct (spawn host (calls p) _) as [rc out err|]; [|reflexivity].
    destruct (rc =? 0); [reflexivity|].
    now destruct (Py.contains _ err).
  - intros rc out err -> Hrc. destruct (Z.eqb_spec rc 0); [contradiction|].
    now destruct (Py.contains _ err).
Qed.

Lemma process_sentinels_effects_witness :
  (process_sentinels host_w BatchMode_sentinels_map _reset start).2
    = mkProc "/w" [mkCall "/w" ("/usr/bin/ruff" :: show_settings_args)].
Proof.
  apply (proj1 (process_sentinels_effects host_w BatchMode_sentinels_map _reset
                  ("/usr/bin/ruff" :: show_settings_args) start eq_refl)).
Defined.

(** ** Further properties of the path grouper *)

Lemma dir_add_id (d : dir_info) k fs a :
  NoDup d.*1 -> (k, fs) ∈ d -> a ∈ fs -> dir_add k a d = d.
Proof.
  induction d as [|[k' fs'] d IH]; intros Hnd Hin Ha.
  - now apply elem_of_nil in Hin.
  - cbn [dir_add]. destruct (String.eqb_spec k' k) as [->|Hne].
    + assert (fs' = fs) as ->.
      { eapply (nodup_keys_unique ((k, fs') :: d)); eauto. left. }
      f_equal. f_equal. apply leibniz_equiv. intros x.
      rewrite elem_of_union, elem_of_singleton. split; [|now left].
      intros [H| ->]; assumption.
    + f_equal. cbn in Hnd. apply NoDup_cons in Hnd as [_ Hnd].
      apply elem_of_cons in Hin as [[= -> ->]|Hin]; [congruence|].
      now apply IH.
Qed.

Lemma files_step_repeat host done fbd p :
  grouped host done fbd -> p ∈ done -> files_step host fbd p = Ret fbd.
Proof.
  intros [_ HB HC _] Hp. unfold files_step.
  destruct (isdir host p) eqn:Edir; [reflexivity|].
  destruct (HB p Hp Edir) as (k & d & fs & -> & Hl & Hin & Ha).
  rewrite Hl, (dir_add_id d k fs) by eauto.
  now rewrite insert_id.
Qed.

Lemma files_loop_app host fbd l1 l2 :
  files_loop host fbd (l1 ++ l2) =
    match files_loop host fbd l1 with
    | Ret f => files_loop host f l2
    | Raise e => Raise e
    end.
Proof.
  revert fbd. induction l1 as [|p l1 IH]; intros fbd; [reflexivity|].
  cbn [app files_loop]. destruct (files_step host fbd p); [apply IH|reflexivity].
Qed.

(** X12: a path that occurs again later in the input changes nothing:
    the table built is the one built without the repetition. *)
Theorem get_files_by_depth_ignores_repeats
    (host : Host) (l1 l2 : list string) (p : string) :
  Py.startswith (getcwd host) "/" = true ->
  p ∈ l1 ->
  _get_files_by_depth host (l1 ++ p :: l2) = _get_files_by_depth host (l1 ++ l2).
Proof.
  intros Habs Hp. unfold _get_files_by_depth. rewrite !files_loop_app.
  destruct (get_files_by_depth_grouped host Habs l1) as (fbd & Hl & Hg).
  unfold _get_files_by_depth in Hl. rewrite Hl. cbn [files_loop].
  now rewrite (files_step_repeat host l1 fbd p).
Qed.

Lemma get_files_by_depth_ignores_repeats_witness :
  _get_files_by_depth host_w (["a/x.py"; "y.py"] ++ "a/x.py" :: ["a/b/z.py"])
    = _get_files_by_depth host_w (["a/x.py"; "y.py"] ++ ["a/b/z.py"]).
Proof.
  apply (get_files_by_depth_ignores_repeats host_w ["a/x.py"; "y.py"] ["a/b/z.py"] "a/x.py");
    [reflexivity|left].
Defined.

(** ** Where child processes run *)

Section Stays.
Context (host : Host) (args : Namespace) (wd : string).

Lemma stays_refl p : cwd p = wd -> stays_in wd p p.
Proof.
  intros H. split; [exact H|]. exists []. split; [now rewrite app_nil_r|constructor].
Qed.

Lemma stays_trans p p1 p2 :
  stays_in wd p p1 -> stays_in wd p1 p2 -> stays_in wd p p2.
Proof.
  intros (_ & n1 & E1 & F1) (H2 & n2 & E2 & F2). split; [exact H2|].
  exists (n1 ++ n2). split.
  - now rewrite E2, E1, app_assoc.
  - apply Forall_app; auto.
Qed.

Lemma launches_in_ret {A} (a : A) : launches_in wd (ret a).
Proof. intros p H. now apply stays_refl. Qed.

Lemma launches_in_raise {A} e : launches_in wd (@raise A e).
Proof. intros p H. now apply stays_refl. Qed.

Lemma launches_in_lift {A} (o : outcome A) : launches_in wd (lift o).
Proof. intros p H. now apply stays_refl. Qed.

Lemma launches_in_bind {A B} (m : M A) (k : A -> M B) :
  launches_in wd m -> (forall a, launches_in wd (k a)) -> launches_in wd (bind m k).
Proof.
  intros Hm Hk p H. unfold bind. specialize (Hm p H).
  destruct (m p) as [[a|e] p1]; cbn [snd] in *; [|exact Hm].
  eapply stays_trans; [exact Hm|]. apply Hk. apply Hm.
Qed.

Lemma launches_in_subprocess argv : launches_in wd (subprocess host argv).
Proof.
  intros p H. unfold subprocess. cbn [snd]. split; [exact H|].
  exists [mkCall (cwd p) argv]. split; [reflexivity|].
  constructor; [exact H|constructor].
Qed.

Lemma launches_in_process_sentinels rules self : launches_in wd (process_sentinels host rules self).
Proof.
  unfold process_sentinels. apply launches_in_bind; [apply launches_in_lift|]. intros argv.
  apply launches_in_bind; [apply launches_in_subprocess|]. intros [rc out err|].
  - destruct (rc =? 0); [apply launches_in_lift|].
    destruct (Py.contains _ err); [apply launches_in_ret|apply launches_in_raise].
  - apply launches_in_raise.
Qed.

Lemma launches_in_check_output argv : launches_in wd (check_output host argv).
Proof.
  unfold check_output. apply launches_in_bind; [apply launches_in_subprocess|].
  intros [rc out err|]; [|apply launches_in_raise].
  destruct (rc =? 0); [apply launches_in_ret|apply launches_in_raise].
Qed.

Lemma launches_in_check_call argv : launches_in wd (check_call host argv).
Proof.
  unfold check_call. apply launches_in_bind; [apply launches_in_subprocess|].
  intros [rc out err|]; [|apply launches_in_raise].
  destruct (rc =? 0); [apply launches_in_ret|apply launches_in_raise].
Qed.

Lemma launches_in_in_scope_files self abs_paths : launches_in wd (in_scope_files host self abs_paths).
Proof.
  unfold in_scope_files. apply launches_in_bind; [apply launches_in_lift|]. intros argv.
  apply launches_in_bind; [apply launches_in_check_output|]. intros out. apply launches_in_ret.
Qed.

Lemma launches_in_run_sequence self cmds paths : launches_in wd (run_sequence host self cmds paths).
Proof.
  induction cmds as [|[i cmd] cmds IH]; cbn [run_sequence]; [apply launches_in_ret|].
  apply launches_in_bind; [apply launches_in_lift|]. intros argv.
  apply launches_in_bind; [apply launches_in_check_call|]. intros _. exact IH.
Qed.

Lemma launches_in_try_sequence self cmds paths rc :
  launches_in wd (try_sequence host self cmds paths rc).
Proof.
  intros p H. unfold try_sequence.
  pose proof (launches_in_run_sequence self cmds paths p H) as Hs.
  destruct (run_sequence host self cmds paths p) as [[[]|e] p1]; cbn [snd] in *.
  - exact Hs.
  - destruct e; exact Hs.
Qed.

Lemma launches_in_run_mode self abs_paths rc : launches_in wd (run_mode host args self abs_paths rc).
Proof.
  unfold run_mode. destruct (_modes self !! mode args) as [m|].
  - apply launches_in_bind; [apply launches_in_in_scope_files|]. intros [|f paths].
    + apply launches_in_ret.
    + apply launches_in_try_sequence.
  - destruct (mode_require args); apply launches_in_ret.
Qed.
End Stays.

(** the processes a bucket launches run in the bucket's directory *)
Lemma bucket_body_calls host args b rc p :
  exists new,
    calls (bucket_body host args b rc p).2 = calls p ++ new /\
    Forall (fun c => call_cwd c = bucket_dir host b) new.
Proof.
  destruct b as [dir_path abs_paths]. unfold bucket_body, bucket_dir. cbn [fst].
  set (wd := _initwd host +:+ "/" +:+ dir_path).
  unfold bind at 1, chdir. destruct (chdir_ok host wd).
  - assert (stays_in wd (mkProc wd (calls p))
              ((let* self := process_sentinels host BatchMode_sentinels_map _reset in
                run_mode host args self abs_paths rc) (mkProc wd (calls p))).2)
      as (_ & new & E & F).
    { apply launches_in_bind; [apply launches_in_process_sentinels| |reflexivity].
      intros self. apply launches_in_run_mode. }
    exists new. split; [exact E|exact F].
  - exists []. cbn [snd]. split; [now rewrite app_nil_r|constructor].
Qed.

(** X13: every child process launched by the loop over the buckets
    runs in the directory of one of the buckets (the start directory joined
    with the bucket's key); nothing is launched anywhere else. *)
Theorem run_launches_in_bucket_directories
    (host : Host) (args : Namespace) (groups : list (nat * dir_info)) (rc : Z) (p : Proc) :
  exists new,
    calls (run_buckets host args groups rc p).2 = calls p ++ new /\
    Forall (fun c => exists b, b ∈ bucket_order groups /\
                               call_cwd c = bucket_dir host b) new.
Proof.
  rewrite run_buckets_flat. generalize (bucket_order groups) as buckets.
  intros buckets. revert rc p.
  induction buckets as [|b buckets IH]; intros rc p.
  - exists []. cbn. split; [now rewrite app_nil_r|constructor].
  - cbn [for_each]. unfold bind.
    destruct (bucket_body_calls host args b rc p) as (n1 & E1 & F1).
    assert (Forall (fun c => exists b0, b0 ∈ b :: buckets /\
                                        call_cwd c = bucket_dir host b0) n1) as F1'.
    { eapply Forall_impl; [exact F1|]. intros c Hc. exists b. split; [left|exact Hc]. }
    destruct (bucket_body host args b rc p) as [[rc'|e] p1]; cbn [snd] in *.
    + destruct (IH rc' p1) as (n2 & E2 & F2). exists (n1 ++ n2). split.
      * now rewrite E2, E1, app_assoc.
      * apply Forall_app. split; [exact F1'|].
        eapply Forall_impl; [exact F2|]. intros c (b0 & Hb & Hc).
        exists b0. split; [now right|exact Hc].
    + exists n1. split; [exact E1|exact F1'].
Qed.

(** ** Single mode *)

Section SingleFacts.
Context (host : Host) (execvp_ok : list string -> bool).

(** X14: with the skip flag set, single mode launches no child
    process (sentinel discovery is bypassed): when the environment default
    is a list of plain words, [ValueError] escapes if an argument holds a
    NUL character; otherwise the process is replaced by those words
    followed by the passthrough arguments, or 200 is returned if the
    replacement fails. *)
Theorem single_mode_skip (w : string) (ws passthrough : list string) (p : Proc) :
  truthy (_skip host) = true ->
  environ host "RUFFWRAP_EXEC" = Some (Py.join " " (w :: ws)) ->
  plain_word w = true -> Forall (fun x => plain_word x = true) ws ->
  SingleMode_run host execvp_ok passthrough p =
    (if existsb (Py.contains nul_char) ((w :: ws) ++ passthrough)
     then Escaped ValueError
     else if execvp_ok ((w :: ws) ++ passthrough)
          then Replaced ((w :: ws) ++ passthrough) else Returned 200, p).
Proof.
  intros Hs He Hw Hws. unfold SingleMode_run. rewrite Hs.
  rewrite (ruff_skip_uses_default host _reset _ passthrough Hs He).
  rewrite split_join_plain by assumption. cbn [app].
  assert (Path.is_empty w = false) as ->.
  { unfold plain_word in Hw. apply andb_prop in Hw as [Hn _].
    unfold Path.is_empty. now rewrite Hn. }
  cbn [orb]. destruct (existsb _ _); [reflexivity|].
  now destruct (execvp_ok _).
Qed.

(** X15: when neither the tool nor the launcher is on the search path
    single mode never returns the code 200: with the skip flag unset the
    error of the resolver escapes from sentinel discovery, and with the skip
    flag set and no environment default the handler of the run fails on the
    unassigned [execargs]; in both cases nothing was launched. *)
Theorem single_mode_tool_not_found (passthrough : list string) (p : Proc) :
  which host "ruff" = None -> which host "uvx" = None ->
  (truthy (_skip host) = false ->
   SingleMode_run host execvp_ok passthrough p = (Escaped FileNotFoundError, p)) /\
  (truthy (_skip host) = true -> environ host "RUFFWRAP_EXEC" = None ->
   SingleMode_run host execvp_ok passthrough p = (EscapedUnboundLocalError, p)).
Proof.
  intros Hr Hu. split.
  - intros Hs. unfold SingleMode_run. rewrite Hs.
    unfold process_sentinels, bind, lift.
    now rewrite (ruff_not_found host _reset) by auto.
  - intros Hs He. unfold SingleMode_run. rewrite Hs.
    unfold ruff. now rewrite Hs, He, Hr, Hu.
Qed.

(** X16: the only code single mode returns is 200, and it returns it
    only after the command was resolved to a non-empty argument vector,
    with a non-empty first element and no NUL character, whose execution
    failed. *)
Theorem single_mode_returns_only_200 (passthrough : list string) (p q : Proc) (code : Z) :
  SingleMode_run host execvp_ok passthrough p = (Returned code, q) ->
  code = 200 /\
  exists self execargs,
    ruff host self passthrough = Ret execargs /\
    execargs ≠ [] /\ execvp_ok execargs = false /\
    head execargs ≠ Some "" /\
    existsb (Py.contains nul_char) execargs = false.
Proof.
  unfold SingleMode_run.
  destruct (if truthy (_skip host) then _ else _) as [[self|e] p1]; [|discriminate].
  destruct (ruff host self passthrough) as [execargs|e] eqn:Er.
  - destruct execargs as [|x execargs]; [discriminate|].
    destruct (Path.is_empty x || existsb (Py.contains nul_char) (x :: execargs))
      eqn:Ebad; [discriminate|].
    destruct (execvp_ok (x :: execargs)) eqn:Eok; [discriminate|].
    intros [= <- <-]. split; [reflexivity|]. exists self, (x :: execargs).
    apply orb_false_iff in Ebad as [Hx Hnul].
    repeat split; auto; try discriminate.
    cbn. intros [= ->]. discriminate.
  - destruct e; discriminate.
Qed.
End SingleFacts.

Lemma single_mode_skip_witness :
  SingleMode_run
    (setenv "RUFFWRAP_EXEC" (Some "/opt/ruff")
       (setenv "RUFFWRAP_SKIP" (Some "1") host_nopath))
    (fun _ => true) ["check"; "x.py"] start
  = (Replaced ["/opt/ruff"; "check"; "x.py"], start).
Proof.
  apply (single_mode_skip
           (setenv "RUFFWRAP_EXEC" (Some "/opt/ruff")
              (setenv "RUFFWRAP_SKIP" (Some "1") host_nopath))
           (fun _ => true) "/opt/ruff" [] ["check"; "x.py"] start);
    [reflexivity|reflexivity|reflexivity|constructor].
Defined.

Lemma single_mode_tool_not_found_witness :
  SingleMode_run host_nopath (fun _ => true) ["check"] start
    = (Escaped FileNotFoundError, start) /\
  SingleMode_run (setenv "RUFFWRAP_SKIP" (Some "1") host_nopath)
    (fun _ => true) ["check"] start
    = (EscapedUnboundLocalError, start).
Proof.
  split.
  - apply (single_mode_tool_not_found host_nopath (fun _ => true) ["check"] start);
      reflexivity.
  - apply (single_mode_tool_not_found (setenv "RUFFWRAP_SKIP" (Some "1") host_nopath)
             (fun _ => true) ["check"] start); reflexivity.
Defined.

Lemma single_mode_returns_only_200_witness :
  exists self execargs,
    ruff host_w self ["check"] = Ret execargs /\
    execargs ≠ [] /\ (fun _ : list string => false) execargs = false /\
    head execargs ≠ Some "" /\
    existsb (Py.contains nul_char) execargs = false.
Proof.
  eapply proj2.
  eapply (single_mode_returns_only_200 host_w (fun _ => false) ["check"] start).
  vm_compute. reflexivity.
Defined.

(** ** Override lines inside the block *)

Lemma last_char_app_comma (s : string) : Py.last_char (s +:+ ",") = Some ","%char.
Proof.
  induction s as [|c s IH]; [reflexivity|].
  rewrite str_app_cons. cbn [Py.last_char].
  destruct (s +:+ ",") eqn:E; [|exact IH].
  destruct s; discriminate.
Qed.

(** X17: inside the block an executable-override line sets the
    override and the scan goes on with the next line; of two override lines
    the later one decides, in both modes. *)
Theorem exec_sentinel_last_wins
    (indent v indent' v' : string) (rest : list string) (self : Self) :
  all_chars (fun c => negb (Ascii.eqb "_" c)) indent = true ->
  v ≠ "" -> all_chars Re.dot v = true ->
  all_chars (fun c => negb (Ascii.eqb "_" c)) indent' = true ->
  v' ≠ "" -> all_chars Re.dot v' = true ->
  let line := indent +:+ "__RUFFWRAP_EXEC__" +:+ v +:+ "," in
  let line' := indent' +:+ "__RUFFWRAP_EXEC__" +:+ v' +:+ "," in
  forall rules, rules = ModeBase_sentinels_map \/ rules = BatchMode_sentinels_map ->
    scan rules false (line :: rest) self
      = scan rules false rest {| _exec := v; _modes := _modes self |} /\
    scan rules false (line :: line' :: rest) self
      = scan rules false (line' :: rest) self.
Proof.
  intros Hi Hv Hd Hi' Hv' Hd' line line' rules Hrules.
  assert (forall ind w s0, all_chars (fun c => negb (Ascii.eqb "_" c)) ind = true ->
            w ≠ "" -> all_chars Re.dot w = true ->
            forall tl,
            scan rules false ((ind +:+ "__RUFFWRAP_EXEC__" +:+ w +:+ ",") :: tl) s0
              = scan rules false tl {| _exec := w; _modes := _modes s0 |}) as Hstep.
  { intros ind w s0 H1 H2 H3 tl. cbn [scan andb].
    rewrite <- !str_app_assoc, last_char_app_comma, !str_app_assoc.
    change (Ascii.eqb "," "]") with false. cbn iota.
    destruct (exec_line_dispatch ind w s0 H1 H2 H3) as [Hm Hb].
    destruct Hrules as [-> | ->]; [now rewrite Hm|now rewrite Hb]. }
  split.
  - now apply Hstep.
  - subst line line'. now rewrite !Hstep by assumption.
Qed.

Lemma exec_sentinel_last_wins_witness :
  scan BatchMode_sentinels_map false
    [ "  " +:+ "__RUFFWRAP_EXEC__" +:+ "/bin/old" +:+ ",";
      "  " +:+ "__RUFFWRAP_EXEC__" +:+ "/bin/new" +:+ ","; "]" ] _reset
  = scan BatchMode_sentinels_map false
      [ "  " +:+ "__RUFFWRAP_EXEC__" +:+ "/bin/new" +:+ ","; "]" ] _reset.
Proof.
  apply (exec_sentinel_last_wins "  " "/bin/old" "  " "/bin/new" ["]"] _reset);
    try reflexivity; try discriminate.
  now right.
Defined.

(** ** Failures that end the run *)

(** X18: in a bucket, a directory that cannot be entered, a failing
    settings query and a failing file query are not bucket-local: the
    exception ends the loop at that bucket, whatever buckets follow. *)
Theorem discovery_failure_is_fatal
    (host : Host) (args : Namespace) (dir_path : string) (abs_paths : gset string)
    (rest : list (string * gset string)) (rc : Z) (p : Proc) :
  let wd := _initwd host +:+ "/" +:+ dir_path in
  let loop := for_each ((dir_path, abs_paths) :: rest) (bucket_body host args) rc p in
  (chdir_ok host wd = false -> loop = (Raise OSError, p)) /\
  (forall e p1,
     chdir_ok host wd = true ->
     process_sentinels host BatchMode_sentinels_map _reset (mkProc wd (calls p))
       = (Raise e, p1) ->
     loop = (Raise e, p1)) /\
  (forall self m e p1 p2,
     chdir_ok host wd = true ->
     process_sentinels host BatchMode_sentinels_map _reset (mkProc wd (calls p))
       = (Ret self, p1) ->
     _modes self !! mode args = Some m ->
     in_scope_files host self abs_paths p1 = (Raise e, p2) ->
     loop = (Raise e, p2)).
Proof.
  intros wd loop. subst loop. cbn [for_each].
  unfold bucket_body, bind, chdir. fold wd. repeat split.
  - intros Hc. now rewrite Hc.
  - intros e p1 Hc Hs. now rewrite Hc, Hs.
  - intros self m e p1 p2 Hc Hs Hm Hf. rewrite Hc, Hs. unfold run_mode.
    rewrite Hm. unfold bind. now rewrite Hf.
Qed.

Lemma discovery_failure_is_fatal_witness :
  for_each [("a/b", {["/w/a/b/x.py"]}); ("a", {["/w/a/y.py"]})]
    (bucket_body host_locked {| mode := "m"; mode_require := false |}) 0 start
  = (Raise OSError, start).
Proof.
  apply (proj1 (discovery_failure_is_fatal host_locked
                  {| mode := "m"; mode_require := false |} "a/b" {["/w/a/b/x.py"]}
                  [("a", {["/w/a/y.py"]})] 0 start)).
  reflexivity.
Defined.

(** X19: the file query passes on only files of the bucket, by base
    name, and launches exactly one child process once the command is
    resolved. *)
Theorem in_scope_files_are_bucket_files
    (host : Host) (self : Self) (abs_paths : gset string)
    (paths : list string) (p p' : Proc) :
  in_scope_files host self abs_paths p = (Ret paths, p') ->
  Forall (fun x => exists f, f ∈ abs_paths /\ x = Path.basename f) paths /\
  exists argv,
    ruff host self ["check"; "--show-files"] = Ret argv /\
    p' = mkProc (cwd p) (calls p ++ [mkCall (cwd p) argv]).
Proof.
  unfold in_scope_files, bind, lift, check_output, bind, subprocess, ret, raise.
  destruct (ruff host self ["check"; "--show-files"]) as [argv|e]; [|discriminate].
  destruct (spawn host (calls p) _) as [rc out err|]; [|discriminate].
  destruct (rc =? 0); [|discriminate].
  intros [= <- <-]. split; [|eauto].
  apply Forall_fmap, Forall_forall. intros f Hf.
  apply list_elem_of_filter in Hf as [Hf _]. cbn. eauto.
Qed.

Lemma in_scope_files_are_bucket_files_witness :
  Forall (fun x => exists f, f ∈ ({["/w/a/x.py"]} : gset string) /\ x = Path.basename f)
    ["x.py"].
Proof.
  eapply proj1.
  eapply (in_scope_files_are_bucket_files host_w _reset {["/w/a/x.py"]} ["x.py"]
            (mkProc "/w/a" [])).
  vm_compute. reflexivity.
Defined.
